(** * yaglm: the function contract, its combinators and the Huber and
      logistic kernels

    A shallow embedding of

      - [yaglm/opt/base.py]: [Func], [EntrywiseFunc], [Zero], [Sum],
        [numeric_prox] and [check_prox_impl];
      - [ya_glm/opt/huber_regression.py]: the Huber kernels and the two
        Huber regression losses;
      - [yaglm/opt/glm_loss/logistic_regression.py]: [logsig].

    Numbers.  A numpy [float64] is modelled by a real number of the
    Standard Library: rounding, [inf] and [nan] are outside the model.

    Arrays.  A numpy array is a shape together with its entries in
    row-major order.

    Exceptions.  A Python call either returns a value or raises; the
    embedding threads this through the [result] monad. *)

From Stdlib Require Import Reals Lra Lia List Bool Arith.
Import ListNotations.

Open Scope R_scope.

(** ** Exceptions *)

Inductive exn : Type :=
| NotImplementedError
| ZeroDivisionError
| ValueError
| IndexError
| AttributeError
| AssertionError
| TypeError.

Inductive result (A : Type) : Type :=
| Ok (a : A)
| Raise (e : exn).

Arguments Ok {A} a.
Arguments Raise {A} e.

Definition bind {A B : Type} (m : result A) (k : A -> result B) : result B :=
  match m with
  | Ok a => k a
  | Raise e => Raise e
  end.

Notation "x <- m ;; k" := (bind m (fun x => k))
  (at level 61, m at next level, right associativity).

Definition raises {A : Type} (m : result A) : Prop :=
  exists e, m = Raise e.

(** ** Real-number comparisons as booleans *)

Definition Rltb (a b : R) : bool := if Rlt_dec a b then true else false.
Definition Rleb (a b : R) : bool := if Rle_dec a b then true else false.
Definition Rgeb (a b : R) : bool := Rleb b a.
Definition Reqb (a b : R) : bool := if Req_dec_T a b then true else false.

(** [np.sign] *)
Definition sign (x : R) : R :=
  if Rltb x 0 then -1 else if Rltb 0 x then 1 else 0.

(** ** numpy arrays *)

Record ndarray : Type := mk_ndarray {
  shape : list nat;
  data : list R
}.

(** The number of entries of an array of a given shape. *)
Definition size_of (sh : list nat) : nat := fold_right Nat.mul 1%nat sh.

Definition wf (a : ndarray) : Prop :=
  length (data a) = size_of (shape a).

Definition ndim (a : ndarray) : nat := length (shape a).

(** A one-dimensional array holding the entries [l]. *)
Definition vec (l : list R) : ndarray := mk_ndarray [length l] l.

(** [np.zeros_like(x)] *)
Definition zeros_like (x : ndarray) : ndarray :=
  mk_ndarray (shape x) (map (fun _ => 0) (data x)).

(** [x.reshape(-1)] *)
Definition flatten (x : ndarray) : ndarray :=
  mk_ndarray [length (data x)] (data x).

(** [x.reshape(sh)]: numpy refuses a shape of another size. *)
Definition reshape (x : ndarray) (sh : list nat) : result ndarray :=
  if Nat.eqb (size_of sh) (length (data x))
  then Ok (mk_ndarray sh (data x))
  else Raise ValueError.

(** *** Broadcasting

    Shapes are compared from their last axis; two axes are compatible
    when they are equal or one of them is 1. *)

Fixpoint bshape_rev (s t : list nat) : option (list nat) :=
  match s, t with
  | [], _ => Some t
  | _, [] => Some s
  | a :: s', b :: t' =>
      match bshape_rev s' t' with
      | None => None
      | Some r =>
          if Nat.eqb a b then Some (a :: r)
          else if Nat.eqb a 1 then Some (b :: r)
          else if Nat.eqb b 1 then Some (a :: r)
          else None
      end
  end.

Definition broadcast_shapes (s t : list nat) : option (list nat) :=
  option_map (@rev nat) (bshape_rev (rev s) (rev t)).

(** [chunks n k d]: the first [k] consecutive blocks of [n] entries of [d]. *)
Fixpoint chunks (n k : nat) (d : list R) : list (list R) :=
  match k with
  | O => []
  | S k' => firstn n d :: chunks n k' (skipn n d)
  end.

(** [expand s t d]: the entries of an array of shape [s] stretched to the
    shape [t] of the same rank; an axis of length 1 is repeated. *)
Fixpoint expand (s t : list nat) (d : list R) : list R :=
  match s, t with
  | a :: s', b :: t' =>
      let blocks := map (expand s' t') (chunks (size_of s') a d) in
      if Nat.eqb a b then concat blocks
      else concat (repeat (hd [] blocks) b)
  | _, _ => d
  end.

(** [np.broadcast_to(a, t)], for a shape [t] the array broadcasts to. *)
Definition broadcast_to (a : ndarray) (t : list nat) : list R :=
  expand (repeat 1%nat (length t - length (shape a)) ++ shape a) t (data a).

Fixpoint map2 (f : R -> R -> R) (l1 l2 : list R) : list R :=
  match l1, l2 with
  | x :: l1', y :: l2' => f x y :: map2 f l1' l2'
  | _, _ => []
  end.

(** An entrywise binary operation of two arrays. *)
Definition arr_binop (f : R -> R -> R) (a b : ndarray) : result ndarray :=
  match broadcast_shapes (shape a) (shape b) with
  | None => Raise ValueError
  | Some t => Ok (mk_ndarray t (map2 f (broadcast_to a t) (broadcast_to b t)))
  end.

Definition arr_sub : ndarray -> ndarray -> result ndarray := arr_binop Rminus.
Definition arr_add : ndarray -> ndarray -> result ndarray := arr_binop Rplus.

(** An array and a Python scalar. *)
Definition arr_map (f : R -> R) (a : ndarray) : ndarray :=
  mk_ndarray (shape a) (map f (data a)).

Definition scal_mul (s : R) (a : ndarray) : ndarray := arr_map (Rmult s) a.
Definition arr_div_scal (a : ndarray) (s : R) : ndarray :=
  arr_map (fun v => v / s) a.

(** [1 / step] on Python numbers. *)
Definition py_inv (s : R) : result R :=
  if Reqb s 0 then Raise ZeroDivisionError else Ok (1 / s).

(** Sums and means of entries. *)
Definition sum_list (l : list R) : R := fold_left Rplus l 0.
Definition arr_sum (a : ndarray) : R := sum_list (data a).
Definition arr_mean (a : ndarray) : R := arr_sum a / INR (length (data a)).

(** The [m] columns of a list of rows. *)
Definition columns (m : nat) (ls : list (list R)) : list (list R) :=
  map (fun j => map (fun l => nth j l 0) ls) (seq 0 m).

(** [a.T]: the axes in reverse order.  For a matrix this is the usual
    transposition; a vector is left as it is. *)
Fixpoint transpose_data (sh : list nat) (d : list R) : list R :=
  match sh with
  | [] => d
  | a :: sh' =>
      concat (columns (size_of sh')
                (map (transpose_data sh') (chunks (size_of sh') a d)))
  end.

Definition transpose (a : ndarray) : ndarray :=
  mk_ndarray (rev (shape a)) (transpose_data (shape a) (data a)).

Definition dot (u v : list R) : R := sum_list (map2 Rmult u v).

(** [a @ b] for operands of rank one or two.  Operands of rank zero make
    numpy raise [ValueError]; the batched product of operands of rank
    three or more is outside the model: the design matrix is a matrix and
    the coefficients and responses are vectors or matrices. *)
Definition matmul (a b : ndarray) : result ndarray :=
  match shape a, shape b with
  | [n; k], [k'] =>
      if Nat.eqb k k'
      then Ok (mk_ndarray [n]
                 (map (fun row => dot row (data b)) (chunks k n (data a))))
      else Raise ValueError
  | [n; k], [k'; m] =>
      if Nat.eqb k k'
      then Ok (mk_ndarray [n; m]
                 (concat (map (fun row =>
                                 map (dot row)
                                   (columns m (chunks m k' (data b))))
                            (chunks k n (data a)))))
      else Raise ValueError
  | [k], [k'] =>
      if Nat.eqb k k'
      then Ok (mk_ndarray [] [dot (data a) (data b)])
      else Raise ValueError
  | [k], [k'; m] =>
      if Nat.eqb k k'
      then Ok (mk_ndarray [m]
                 (map (dot (data a)) (columns m (chunks m k' (data b)))))
      else Raise ValueError
  | _, _ => Raise ValueError
  end.

(** [a.shape[i]] *)
Definition shape_at (a : ndarray) (i : nat) : result nat :=
  match nth_error (shape a) i with
  | Some n => Ok n
  | None => Raise IndexError
  end.

(** ** Values a gradient can be

    [Sum.grad] starts Python's [sum] from the integer [0], so a gradient
    is either a Python number or an array. *)

Inductive value : Type :=
| VNum (r : R)
| VArr (a : ndarray).

Definition value_add (u v : value) : result value :=
  match u, v with
  | VNum a, VNum b => Ok (VNum (a + b))
  | VNum a, VArr b => Ok (VArr (arr_map (fun t => a + t) b))
  | VArr a, VNum b => Ok (VArr (arr_map (fun t => t + b) a))
  | VArr a, VArr b => r <- arr_add a b ;; Ok (VArr r)
  end.

(** ** [Func]: the function contract *)

Inductive capability : Type := EVAL | GRAD | PROX | GRAD_LIP.

Definition capability_eqb (a b : capability) : bool :=
  match a, b with
  | EVAL, EVAL | GRAD, GRAD | PROX, PROX | GRAD_LIP, GRAD_LIP => true
  | _, _ => false
  end.

(** The methods a [Func] object answers, as the object's class resolves
    them.  [capabilities] is the attribute of that name when the object
    has one: in [base.py] the method is commented out, so no class of the
    module provides it. *)
Record Func : Type := mk_Func {
  eval : ndarray -> result R;
  grad : ndarray -> result value;
  prox : ndarray -> R -> result ndarray;
  grad_lip : option R;
  is_smooth : result bool;
  is_proximable : result bool;
  capabilities : option (ndarray -> result (list capability))
}.

(** The default value of the [step] argument. *)
Definition default_step : R := 1.

(** *** The methods of the base class

    [np.array(x, copy=False)] and [np.array(x)] return an array with the
    entries of [x]. *)
Module FuncBase.

Definition _eval (x : ndarray) : result R := Raise NotImplementedError.
Definition _grad (x : ndarray) : result ndarray := Raise NotImplementedError.
Definition _prox (x : ndarray) (step : R) : result ndarray :=
  Raise NotImplementedError.

Definition eval (_eval : ndarray -> result R) (x : ndarray) : result R :=
  _eval x.

Definition grad (_grad : ndarray -> result ndarray) (x : ndarray)
  : result value :=
  g <- _grad x ;; Ok (VArr g).

Definition prox (_prox : ndarray -> R -> result ndarray)
    (x : ndarray) (step : R) : result ndarray :=
  _prox x step.

(** [_grad_lip] is the attribute of that name, when it has been set. *)
Definition grad_lip (_grad_lip : option R) : option R :=
  match _grad_lip with
  | Some l => Some l
  | None => None
  end.

Definition is_smooth : result bool := Raise NotImplementedError.
Definition is_proximable : result bool := Raise NotImplementedError.

End FuncBase.

(** [Func.conj_prox]: defined once, on the base class, from whatever
    [prox] the object has. *)
Definition conj_prox (self : Func) (x : ndarray) (step : R) : result ndarray :=
  let x' := arr_div_scal x step in
  step' <- py_inv step ;;
  p <- prox self x' step' ;;
  arr_sub x (scal_mul step p).

(** *** [EntrywiseFunc] *)
Module EntrywiseFunc.
Section Methods.
Variable _eval : ndarray -> result R.
Variable _grad : ndarray -> result ndarray.
Variable _prox : ndarray -> R -> result ndarray.

Definition eval (x : ndarray) : result R := _eval (flatten x).

Definition grad (x : ndarray) : result value :=
  g <- _grad (flatten x) ;;
  r <- reshape g (shape x) ;;
  Ok (VArr r).

Definition prox (x : ndarray) (step : R) : result ndarray :=
  p <- _prox (flatten x) step ;;
  reshape p (shape x).

Definition make (_grad_lip : option R) : Func :=
  mk_Func eval grad prox (FuncBase.grad_lip _grad_lip)
    FuncBase.is_smooth FuncBase.is_proximable None.
End Methods.
End EntrywiseFunc.

(** *** [Zero] *)
Module Zero.

Definition _eval (x : ndarray) : result R := Ok 0.
Definition _grad (x : ndarray) : result ndarray := Ok (zeros_like x).
Definition _prox (x : ndarray) (step : R) : result ndarray := Ok x.
Definition is_smooth : result bool := Ok true.
Definition is_proximable : result bool := Ok true.
Definition grad_lip : option R := Some 0.

Definition make : Func :=
  mk_Func (FuncBase.eval _eval) (FuncBase.grad _grad) (FuncBase.prox _prox)
    grad_lip is_smooth is_proximable None.

End Zero.

(** *** [Sum] *)
Module Sum.
Section Methods.
Variable funcs : list Func.

(** Python's [sum] over a generator: the items are produced and added
    from the left, starting from [0]. *)
Fixpoint sum_evals (fs : list Func) (x : ndarray) (acc : R) : result R :=
  match fs with
  | [] => Ok acc
  | f :: fs' => v <- eval f x ;; sum_evals fs' x (acc + v)
  end.

Fixpoint sum_grads (fs : list Func) (x : ndarray) (acc : value)
  : result value :=
  match fs with
  | [] => Ok acc
  | f :: fs' =>
      g <- grad f x ;;
      acc' <- value_add acc g ;;
      sum_grads fs' x acc'
  end.

(** The loop of the [grad_lip] property. *)
Fixpoint grad_lip_loop (fs : list Func) (lip : R) : option R :=
  match fs with
  | [] => Some lip
  | f :: fs' =>
      match grad_lip f with
      | None => None
      | Some flip => grad_lip_loop fs' (lip + flip)
      end
  end.

(** [all] stops at the first false item. *)
Fixpoint all_smooth (fs : list Func) : result bool :=
  match fs with
  | [] => Ok true
  | f :: fs' =>
      b <- is_smooth f ;;
      if b then all_smooth fs' else Ok false
  end.

Definition eval (x : ndarray) : result R := sum_evals funcs x 0.

Definition grad (x : ndarray) : result value := sum_grads funcs x (VNum 0).

Definition grad_lip : option R := grad_lip_loop funcs 0.

Definition is_smooth : result bool := all_smooth funcs.

Definition is_proximable : result bool := Ok false.

Definition make : Func :=
  mk_Func eval grad (FuncBase.prox FuncBase._prox) grad_lip
    is_smooth is_proximable None.
End Methods.
End Sum.

(** ** The Huber kernels ([huber_regression.py]) *)

Definition huber_eval_1d (x knot : R) : R :=
  let x_abs := Rabs x in
  if Rleb x_abs knot then 0.5 * x ^ 2
  else knot * (x_abs - 0.5 * knot).

Definition huber_grad_1d (x knot : R) : R :=
  if Rleb (Rabs x) knot then x
  else knot * sign x.

(** Modelled from the spec: [safe_vectorize] of [ya_glm.opt.utils] is not
    among the sources.  The spec has the kernels "applied entrywise" and
    "vectorized entrywise", the second argument being the same knot for
    every entry. *)
Definition safe_vectorize (f : R -> R -> R) (x : ndarray) (knot : R)
  : ndarray :=
  arr_map (fun v => f v knot) x.

Definition _vec_huber_eval : ndarray -> R -> ndarray :=
  safe_vectorize huber_eval_1d.

Definition huber_eval (x : ndarray) (knot : R) : R :=
  arr_sum (_vec_huber_eval x knot).

Definition _vec_huber_grad : ndarray -> R -> ndarray :=
  safe_vectorize huber_grad_1d.

Definition huber_grad (x : ndarray) (knot : R) : ndarray :=
  _vec_huber_grad x knot.

(** Modelled from the spec: [safe_data_mat_coef_dot] of
    [ya_glm.opt.utils] is not among the sources.  The spec has it compute
    the linear prediction [X beta + b], where [b] is the intercept and is
    absent without [fit_intercept]; with [fit_intercept] the coefficient
    vector has [n_features + 1] entries, the intercept first as in the
    gradient. *)
Definition safe_data_mat_coef_dot (X coef : ndarray) (fit_intercept : bool)
  : result ndarray :=
  if fit_intercept then
    match shape coef, data coef with
    | [S m], b :: beta =>
        z <- matmul X (mk_ndarray [m] beta) ;;
        Ok (arr_map (fun v => v + b) z)
    | _, _ => Raise IndexError
    end
  else matmul X coef.

(** [np.concatenate([[v], b])]: the second operand has to be a vector
    too. *)
Definition concatenate_front (v : R) (b : ndarray) : result ndarray :=
  match shape b with
  | [m] => Ok (mk_ndarray [S m] (v :: data b))
  | _ => Raise ValueError
  end.

(** The defaults of the constructors. *)
Definition default_knot : R := 1.35.
Definition default_fit_intercept : bool := true.

(** *** [HuberRegLoss]

    Its module imports [Func] from [ya_glm.opt.base], which is not among
    the sources; the class is read against the [Func] of
    [yaglm/opt/base.py].  [get_lin_reg_lip] of
    [ya_glm.opt.linear_regression] is not among the sources either and is
    a parameter of the constructor. *)
Module HuberRegLoss.

Record t : Type := mk {
  fit_intercept : bool;
  X : ndarray;
  y : ndarray;
  knot : R;
  _grad_lip : R
}.

Definition __init__ (get_lin_reg_lip : ndarray -> bool -> result R)
    (X y : ndarray) (knot : R) (fit_intercept : bool) (lip : option R)
  : result t :=
  match lip with
  | None =>
      l <- get_lin_reg_lip X fit_intercept ;;
      Ok (mk fit_intercept X y knot l)
  | Some l => Ok (mk fit_intercept X y knot l)
  end.

Definition _eval (self : t) (x : ndarray) : result R :=
  pred <- safe_data_mat_coef_dot (X self) x (fit_intercept self) ;;
  n <- shape_at (X self) 0 ;;
  c <- py_inv (INR n) ;;
  resid <- arr_sub pred (y self) ;;
  Ok (c * huber_eval resid (knot self)).

Definition _grad (self : t) (x : ndarray) : result ndarray :=
  pred <- safe_data_mat_coef_dot (X self) x (fit_intercept self) ;;
  resid <- arr_sub pred (y self) ;;
  let g := huber_grad resid (knot self) in
  n <- shape_at (X self) 0 ;;
  c <- py_inv (INR n) ;;
  coef_grad <- matmul (scal_mul c (transpose (X self))) g ;;
  if fit_intercept self then
    let intercept_grad := arr_mean g in
    concatenate_front intercept_grad coef_grad
  else Ok coef_grad.

Definition as_Func (self : t) : Func :=
  mk_Func (FuncBase.eval (_eval self)) (FuncBase.grad (_grad self))
    (FuncBase.prox FuncBase._prox) (FuncBase.grad_lip (Some (_grad_lip self)))
    FuncBase.is_smooth FuncBase.is_proximable None.

End HuberRegLoss.

(** *** [HuberRegMultiRespLoss]: the constructor *)
Module HuberRegMultiRespLoss.

Record t : Type := mk {
  fit_intercept : bool;
  X : ndarray;
  y : ndarray;
  knot : R;
  coef_shape : nat * nat;
  _grad_lip : R
}.

Definition __init__ (get_lin_reg_lip : ndarray -> bool -> result R)
    (X y : ndarray) (knot : R) (fit_intercept : bool) (lip : option R)
  : result t :=
  coef_shape <-
    (if fit_intercept then
       d <- shape_at X 1 ;; k <- shape_at y 1 ;; Ok (d + 1, k)%nat
     else
       d <- shape_at X 1 ;; k <- shape_at y 1 ;; Ok (d, k)) ;;
  match lip with
  | None =>
      l <- get_lin_reg_lip X fit_intercept ;;
      Ok (mk fit_intercept X y knot coef_shape l)
  | Some l => Ok (mk fit_intercept X y knot coef_shape l)
  end.

End HuberRegMultiRespLoss.

(** ** The logistic log-sigmoid ([logistic_regression.py]) *)

Definition log1p (t : R) : R := ln (1 + t).

(** Boolean index arrays, in row-major order like the entries. *)
Definition arr_lt (x : ndarray) (c : R) : list bool :=
  map (fun v => Rltb v c) (data x).

Definition arr_ge (x : ndarray) (c : R) : list bool :=
  map (fun v => Rgeb v c) (data x).

Fixpoint mask_and (m1 m2 : list bool) : list bool :=
  match m1, m2 with
  | a :: m1', b :: m2' => andb a b :: mask_and m1' m2'
  | _, _ => []
  end.

(** [x[idx]]: the selected entries, as a vector. *)
Fixpoint take_mask (idx : list bool) (d : list R) : list R :=
  match idx, d with
  | true :: idx', v :: d' => v :: take_mask idx' d'
  | false :: idx', _ :: d' => take_mask idx' d'
  | _, _ => []
  end.

Definition select (x : ndarray) (idx : list bool) : ndarray :=
  vec (take_mask idx (data x)).

(** [out[idx] = vals], with one value for each selected entry. *)
Fixpoint put_mask (idx : list bool) (out vals : list R) : list R :=
  match idx, out with
  | true :: idx', o :: out' =>
      match vals with
      | v :: vals' => v :: put_mask idx' out' vals'
      | [] => o :: put_mask idx' out' []
      end
  | false :: idx', o :: out' => o :: put_mask idx' out' vals
  | _, _ => out
  end.

Definition assign (out : ndarray) (idx : list bool) (vals : ndarray)
  : ndarray :=
  mk_ndarray (shape out) (put_mask idx (data out) (data vals)).

Definition arr_neg : ndarray -> ndarray := arr_map Ropp.
Definition arr_exp : ndarray -> ndarray := arr_map exp.
Definition arr_log1p : ndarray -> ndarray := arr_map log1p.

(** Two vectors of the same length. *)
Definition vec_sub (a b : ndarray) : ndarray :=
  vec (map2 Rminus (data a) (data b)).

Definition logsig (x : ndarray) : ndarray :=
  let out := zeros_like x in
  let idx0 := arr_lt x (-33) in
  let out := assign out idx0 (select x idx0) in
  let idx1 := mask_and (arr_ge x (-33)) (arr_lt x (-18)) in
  let out := assign out idx1
               (vec_sub (select x idx1) (arr_exp (select x idx1))) in
  let idx2 := mask_and (arr_ge x (-18)) (arr_lt x 37) in
  let out := assign out idx2
               (arr_neg (arr_log1p (arr_exp (arr_neg (select x idx2))))) in
  let idx3 := arr_ge x 37 in
  let out := assign out idx3 (arr_neg (arr_exp (arr_neg (select x idx3)))) in
  out.

(** The four-region formula of the specification, for one entry. *)
Definition logsig_regions (v : R) : R :=
  if Rltb v (-33) then v
  else if Rltb v (-18) then v - exp v
  else if Rltb v 37 then - log1p (exp (- v))
  else - exp (- v).

(** ** The proximal check ([numeric_prox], [check_prox_impl]) *)

Definition value_scale (s : R) (v : value) : value :=
  match v with
  | VNum r => VNum (s * r)
  | VArr a => VArr (scal_mul s a)
  end.

Definition value_sub (a : ndarray) (v : value) : result ndarray :=
  match v with
  | VNum r => Ok (arr_map (fun t => t - r) a)
  | VArr b => arr_sub a b
  end.

Definition arr_abs : ndarray -> ndarray := arr_map Rabs.

(** [a.max()] *)
Definition arr_max (a : ndarray) : result R :=
  match data a with
  | [] => Raise ValueError
  | v :: l => Ok (fold_left Rmax l v)
  end.

(** [np.linalg.norm(a)]: the root of the sum of the squared entries. *)
Definition norm (a : ndarray) : R :=
  sqrt (sum_list (map (fun t => t * t) (data a))).

(** [np.allclose(a, b, rtol, atol)] *)
Definition allclose (a : ndarray) (b : value) (rtol atol : R) : result bool :=
  let close u v := Rleb (Rabs (u - v)) (atol + rtol * Rabs v) in
  match b with
  | VNum r => Ok (forallb (fun u => close u r) (data a))
  | VArr b' =>
      match broadcast_shapes (shape a) (shape b') with
      | None => Raise ValueError
      | Some t =>
          Ok (forallb (fun p => close (fst p) (snd p))
                (combine (broadcast_to a t) (broadcast_to b' t)))
      end
  end.

(** [len(a)] *)
Definition len (a : ndarray) : result nat :=
  match shape a with
  | [] => Raise TypeError
  | n :: _ => Ok n
  end.

(** [a.item()] *)
Definition item (a : ndarray) : result R :=
  match data a with
  | [v] => Ok v
  | _ => Raise ValueError
  end.

(** The [behavior] argument; the assertion that it is one of ['ret'],
    ['error'] and ['warn'] holds by typing. *)
Inductive behavior : Type := ret | error | warn.

Record errs : Type := mk_errs {
  mad : R;
  max_err : R;
  l2 : R
}.

(** What a check hands back: the pair it returns under ['ret'], and
    otherwise [None], after a warning or without one. *)
Inductive check_out : Type :=
| Returned (errors : list errs) (passes : list bool)
| Warned (n_fails : nat)
| Quiet.

(** [sum(~passes)] for [passes = np.array(passes)]: the array of an empty
    list has the type [float64], which [~] refuses. *)
Definition count_fails (passes : list bool) : result nat :=
  match passes with
  | [] => Raise TypeError
  | _ => Ok (length (filter negb passes))
  end.

Section ProxCheck.

(** [scipy.optimize.minimize] and its keyword arguments. *)
Variable kws_t : Type.
Variable opt_result : Type.
Variable opt_x : opt_result -> ndarray.
Variable minimize :
  (ndarray -> result R) -> ndarray -> option (ndarray -> result value) ->
  kws_t -> result opt_result.
Variable no_kws : kws_t.

(** The keyword arguments [check_prox_impl] forwards to [numeric_prox]:
    those of [minimize], and [force_no_grad] when the caller sets it. *)
Record opt_kws_t : Type := mk_opt_kws {
  force_no_grad : option bool;
  kws : kws_t
}.

(** [opt_kws={}] *)
Definition default_opt_kws : opt_kws_t := mk_opt_kws None no_kws.

Definition prox_eval (func : Func) (x : ndarray) (step : R) (z : ndarray)
  : result R :=
  v <- eval func z ;;
  d <- arr_sub z x ;;
  Ok (step * v + 0.5 * arr_sum (arr_map (fun t => t ^ 2) d)).

Definition prox_grad (func : Func) (x : ndarray) (step : R) (z : ndarray)
  : result value :=
  g <- grad func z ;;
  d <- arr_sub z x ;;
  value_add (value_scale step g) (VArr d).

Definition get_prox_funcs (func : Func) (force_no_grad : bool)
    (x : ndarray) (step : R)
  : result ((ndarray -> result R) * option (ndarray -> result value)) :=
  if negb force_no_grad then
    match capabilities func with
    | None => Raise AttributeError
    | Some cap =>
        c <- cap x ;;
        if existsb (capability_eqb GRAD) c
        then Ok (prox_eval func x step, Some (prox_grad func x step))
        else Ok (prox_eval func x step, None)
    end
  else Ok (prox_eval func x step, None).

Definition numeric_prox (func : Func) (x : ndarray) (step : R)
    (init : option ndarray) (force_no_grad : bool) (kws : kws_t)
  : result (ndarray * opt_result) :=
  let init :=
    match init with
    | None => x
    | Some i => i
    end in
  fs <- get_prox_funcs func force_no_grad x step ;;
  opt_out <- minimize (fst fs) init (snd fs) kws ;;
  Ok (opt_x opt_out, opt_out).

(** One turn of the loop of [check_prox_impl]; printing is left out. *)
Definition check_prox_one (func : Func) (x : ndarray) (step rtol atol : R)
    (b : behavior) (opt_kws : opt_kws_t) : result (errs * bool) :=
  prox_out <- prox func x step ;;
  po <- numeric_prox func x step (Some prox_out)
          (match force_no_grad opt_kws with
           | Some fl => fl
           | None => false
           end)
          (kws opt_kws) ;;
  n <- len (fst po) ;;
  prox_baseline <-
    (if Nat.eqb n 1 then v <- item (fst po) ;; Ok (VNum v)
     else Ok (VArr (fst po))) ;;
  did_pass <- allclose prox_out prox_baseline rtol atol ;;
  d1 <- value_sub prox_out prox_baseline ;;
  d2 <- value_sub prox_out prox_baseline ;;
  mx <- arr_max (arr_abs d2) ;;
  d3 <- value_sub prox_out prox_baseline ;;
  let es := mk_errs (arr_mean (arr_abs d1)) mx (norm d3) in
  match b with
  | error => if did_pass then Ok (es, did_pass) else Raise AssertionError
  | _ => Ok (es, did_pass)
  end.

Fixpoint check_prox_loop (func : Func) (values : list ndarray)
    (step rtol atol : R) (b : behavior) (opt_kws : opt_kws_t)
    (errors : list errs) (passes : list bool)
  : result (list errs * list bool) :=
  match values with
  | [] => Ok (errors, passes)
  | x :: values' =>
      r <- check_prox_one func x step rtol atol b opt_kws ;;
      check_prox_loop func values' step rtol atol b opt_kws
        (errors ++ [fst r]) (passes ++ [snd r])
  end.

Definition check_prox_impl (func : Func) (values : list ndarray)
    (step rtol atol : R) (b : behavior) (opt_kws : opt_kws_t)
  : result check_out :=
  r <- check_prox_loop func values step rtol atol b opt_kws [] [] ;;
  let passes := snd r in
  n_fails <- count_fails passes ;;
  match b with
  | ret => Ok (Returned (fst r) passes)
  | warn => if Nat.ltb 0 n_fails then Ok (Warned n_fails) else Ok Quiet
  | error => Ok Quiet
  end.

End ProxCheck.

Arguments mk_opt_kws {kws_t} force_no_grad kws.
Arguments force_no_grad {kws_t} o.
Arguments kws {kws_t} o.
Arguments default_opt_kws {kws_t} no_kws.
Arguments numeric_prox {kws_t opt_result} opt_x minimize.
Arguments check_prox_one {kws_t opt_result} opt_x minimize.
Arguments check_prox_loop {kws_t opt_result} opt_x minimize.
Arguments check_prox_impl {kws_t opt_result} opt_x minimize.

(** The defaults of [check_prox_impl]. *)
Definition default_check_step : R := 0.5.
Definition default_rtol : R := 1e-5.
Definition default_atol : R := 1e-5.

(** ** The gradient check ([check_grad_impl]) *)

(** What the gradient check hands back: its errors are numbers. *)
Inductive grad_check_out : Type :=
| GradReturned (errors : list R) (passes : list bool)
| GradWarned (n_fails : nat)
| GradQuiet.

Section GradCheck.

(** [scipy.optimize.check_grad] *)
Variable check_grad :
  (ndarray -> result R) -> (ndarray -> result value) -> ndarray -> result R.

(** One turn of the loop of [check_grad_impl]; printing is left out.
    [np.allclose(0, err, rtol=0, atol=atol)] *)
Definition check_grad_one (func : Func) (x0 : ndarray) (atol : R)
    (b : behavior) : result (R * bool) :=
  err <- check_grad (eval func) (grad func) x0 ;;
  let did_pass := Rleb (Rabs (0 - err)) (atol + 0 * Rabs err) in
  match b with
  | error => if did_pass then Ok (err, did_pass) else Raise AssertionError
  | _ => Ok (err, did_pass)
  end.

Fixpoint check_grad_loop (func : Func) (values : list ndarray) (atol : R)
    (b : behavior) (errors : list R) (passes : list bool)
  : result (list R * list bool) :=
  match values with
  | [] => Ok (errors, passes)
  | x0 :: values' =>
      r <- check_grad_one func x0 atol b ;;
      check_grad_loop func values' atol b
        (errors ++ [fst r]) (passes ++ [snd r])
  end.

Definition check_grad_impl (func : Func) (values : list ndarray) (atol : R)
    (b : behavior) : result grad_check_out :=
  r <- check_grad_loop func values atol b [] [] ;;
  let passes := snd r in
  n_fails <- count_fails passes ;;
  match b with
  | ret => Ok (GradReturned (fst r) passes)
  | warn => if Nat.ltb 0 n_fails then Ok (GradWarned n_fails) else Ok GradQuiet
  | error => Ok GradQuiet
  end.

End GradCheck.

(** ** The logistic sample losses and gradients *)

(** A boolean index of the shape [sh] against an array of the same rank
    or a higher one: numpy compares the axes of the index with the
    leading axes of the array, and skips an axis of the index of
    length 0. *)
Fixpoint axes_match (sh dims : list nat) : bool :=
  match sh, dims with
  | [], _ => true
  | m :: sh', d :: dims' =>
      (Nat.eqb m 0 || Nat.eqb m d) && axes_match sh' dims'
  | _ :: _, [] => false
  end.

Fixpoint take_blocks (idx : list bool) (blocks : list (list R)) : list R :=
  match idx, blocks with
  | true :: idx', b :: bs => b ++ take_blocks idx' bs
  | false :: idx', _ :: bs => take_blocks idx' bs
  | _, _ => []
  end.

Definition count_true (idx : list bool) : nat :=
  length (filter (fun b => b) idx).

(** [a[idx]] for a boolean index [idx] of the shape [sh].  An array of
    lower rank than the index raises [IndexError], and so does an array
    with a leading axis other than that of the index.  The result has an
    axis for the selected positions, followed by the axes of the array
    the index does not cover; an index of rank zero selects the whole
    array, once or not at all. *)
Definition bool_index (a : ndarray) (sh : list nat) (idx : list bool)
  : result ndarray :=
  let r := length sh in
  if Nat.ltb (ndim a) r then Raise IndexError
  else if axes_match sh (shape a) then
    let rest := skipn r (shape a) in
    Ok (mk_ndarray (count_true idx :: rest)
          (take_blocks idx
             (chunks (size_of rest) (size_of (firstn r (shape a)))
                (data a))))
  else Raise IndexError.

(** The leading axes of length 1 that an assignment drops from a value
    of more axes than its target. *)
Fixpoint strip_ones (sh : list nat) : list nat :=
  match sh with
  | 1%nat :: ((_ :: _) as sh') => strip_ones sh'
  | _ => sh
  end.

(** [out[idx] = vals] for a boolean index of the shape of [out].  A value
    of one entry is written at every selected position; a vector has to
    have one entry for each selected position, or numpy raises
    [ValueError]; a value of two axes or more raises [TypeError].  For
    [out] of rank zero the index is a single boolean and the value is
    broadcast to the selection, its leading axes of length 1 dropped. *)
Definition bool_assign (out : ndarray) (idx : list bool) (vals : ndarray)
  : result ndarray :=
  let count := count_true idx in
  let s :=
    match shape out with
    | [] => strip_ones (shape vals)
    | _ => shape vals
    end in
  match s with
  | [] => Ok (assign out idx (vec (repeat (hd 0 (data vals)) count)))
  | [m] =>
      if Nat.eqb m 1
      then Ok (assign out idx (vec (repeat (hd 0 (data vals)) count)))
      else if Nat.eqb m count then Ok (assign out idx vals)
      else Raise ValueError
  | _ =>
      match shape out with
      | [] => Raise ValueError
      | _ => Raise TypeError
      end
  end.

Definition sample_losses (z y : ndarray) : result ndarray :=
  a <- arr_binop Rmult (arr_map (fun t => 1 - t) y) z ;;
  arr_sub a (logsig z).

Definition sample_grads (z y : ndarray) : result ndarray :=
  let idx := arr_lt z 0 in
  let out := zeros_like z in
  let exp_z := arr_exp (select z idx) in
  y_idx <- bool_index y (shape z) idx ;;
  a <- arr_binop Rmult (arr_map (fun t => 1 - t) y_idx) exp_z ;;
  b <- arr_sub a y_idx ;;
  c <- arr_binop Rdiv b (arr_map (fun t => 1 + t) exp_z) ;;
  out <- bool_assign out idx c ;;
  let nidx := map negb idx in
  let exp_nx := arr_exp (arr_neg (select z nidx)) in
  y_nidx <- bool_index y (shape z) nidx ;;
  a' <- arr_binop Rmult y_nidx exp_nx ;;
  b' <- arr_sub (arr_map (fun t => 1 - t) y_nidx) a' ;;
  c' <- arr_binop Rdiv b' (arr_map (fun t => 1 + t) exp_nx) ;;
  bool_assign out nidx c'.

(** [compute_lip]; [safe_covar_mat_op_norm] of [yaglm.opt.glm_loss.utils]
    is not among the sources and is a parameter. *)
Definition compute_lip
    (safe_covar_mat_op_norm :
       ndarray -> bool -> option ndarray -> result R)
    (X : ndarray) (fit_intercept : bool) (sample_weight : option ndarray)
  : result R :=
  op_norm <- safe_covar_mat_op_norm X fit_intercept sample_weight ;;
  n <- shape_at X 0 ;;
  c <- (if Reqb (INR n) 0 then Raise ZeroDivisionError
        else Ok (0.25 / INR n)) ;;
  Ok (c * op_norm ^ 2).

(** The logistic function, to state what the kernels compute. *)
Definition sigmoid (v : R) : R := 1 / (1 + exp (- v)).

(** The two formulas of [sample_grads], for one entry: the one for a
    negative linear predictor and the one for the others. *)
Definition sample_grad_entry (zv yv : R) : R :=
  if Rltb zv 0 then ((1 - yv) * exp zv - yv) / (1 + exp zv)
  else ((1 - yv) - yv * exp (- zv)) / (1 + exp (- zv)).

(** ** [HuberRegMultiRespLoss]: evaluation and gradient *)

(** [g.mean(axis=0)]; an array of rank zero has no axis. *)
Definition mean_axis0 (a : ndarray) : result ndarray :=
  match shape a with
  | [] => Raise ValueError
  | n :: sh =>
      Ok (mk_ndarray sh
            (map (fun col => sum_list col / INR n)
               (columns (size_of sh) (chunks (size_of sh) n (data a)))))
  end.

(** [np.atleast_2d] *)
Definition atleast_2d (a : ndarray) : ndarray :=
  match shape a with
  | [] => mk_ndarray [1; 1]%nat (data a)
  | [k] => mk_ndarray [1%nat; k] (data a)
  | _ => a
  end.

(** [np.vstack([a, b])] *)
Definition vstack (a b : ndarray) : result ndarray :=
  match shape (atleast_2d a), shape (atleast_2d b) with
  | r1 :: t1, r2 :: t2 =>
      if list_eq_dec Nat.eq_dec t1 t2
      then Ok (mk_ndarray ((r1 + r2)%nat :: t1) (data a ++ data b))
      else Raise ValueError
  | _, _ => Raise ValueError
  end.

Module HuberRegMultiRespLossMethods.
Section Methods.

(** [safe_data_mat_coef_mat_dot] of [ya_glm.opt.utils] is not among the
    sources and is a parameter. *)
Variable safe_data_mat_coef_mat_dot :
  ndarray -> ndarray -> bool -> result ndarray.

Variable self : HuberRegMultiRespLoss.t.

Definition coef_shape_list : list nat :=
  [fst (HuberRegMultiRespLoss.coef_shape self);
   snd (HuberRegMultiRespLoss.coef_shape self)].

Definition _eval (x : ndarray) : result R :=
  coef <- reshape x coef_shape_list ;;
  pred <- safe_data_mat_coef_mat_dot (HuberRegMultiRespLoss.X self) coef
            (HuberRegMultiRespLoss.fit_intercept self) ;;
  resid <- arr_sub pred (HuberRegMultiRespLoss.y self) ;;
  n <- shape_at (HuberRegMultiRespLoss.X self) 0 ;;
  c <- py_inv (INR n) ;;
  Ok (c * huber_eval (flatten resid) (HuberRegMultiRespLoss.knot self)).

Definition _grad (x : ndarray) : result ndarray :=
  coef <- reshape x coef_shape_list ;;
  pred <- safe_data_mat_coef_mat_dot (HuberRegMultiRespLoss.X self) coef
            (HuberRegMultiRespLoss.fit_intercept self) ;;
  resid <- arr_sub pred (HuberRegMultiRespLoss.y self) ;;
  let g := huber_grad resid (HuberRegMultiRespLoss.knot self) in
  n <- shape_at (HuberRegMultiRespLoss.X self) 0 ;;
  c <- py_inv (INR n) ;;
  coef_grad <-
    matmul (scal_mul c (transpose (HuberRegMultiRespLoss.X self))) g ;;
  if HuberRegMultiRespLoss.fit_intercept self then
    intercept_grad <- mean_axis0 g ;;
    vstack intercept_grad coef_grad
  else Ok coef_grad.

End Methods.
End HuberRegMultiRespLossMethods.

(** ** Notions used to state the properties *)

(** A function that sets no [_grad_lip]. *)
Definition unknown_lip : Func :=
  EntrywiseFunc.make FuncBase._eval FuncBase._grad FuncBase._prox None.

(** A function with a precomputed Lipschitz constant. *)
Definition known_lip (l : R) : Func :=
  EntrywiseFunc.make FuncBase._eval FuncBase._grad FuncBase._prox (Some l).

(** The entry of row [i] and column [j] of a matrix of [d] columns. *)
Definition entry (d : nat) (X : ndarray) (i j : nat) : R :=
  nth (i * d + j) (data X) 0.

(** The product of the transposed [n] by [d] matrix [X] and the vector
    [g]: its entry [j] is the sum over [i] of [X[i][j] * g[i]]. *)
Definition Xt_dot (n d : nat) (X : ndarray) (g : list R) : list R :=
  map (fun j =>
         sum_list (map (fun i => entry d X i j * nth i g 0) (seq 0 n)))
      (seq 0 d).

(** The array of zeros of a given length. *)
Definition zeros (m : nat) : ndarray := vec (repeat 0 m).

(** The linear prediction with an intercept, for a design matrix of [n]
    rows and [d] columns: row by row, the coefficients after the first
    against the features, plus the first coefficient. *)
Definition linear_prediction (n d : nat) (X x : ndarray) : ndarray :=
  mk_ndarray [n]
    (map (fun row => dot row (tl (data x)) + hd 0 (data x))
       (chunks d n (data X))).

(** The residual of [HuberRegLoss]: the prediction minus the response,
    sample by sample. *)
Definition residual_of (n d : nat) (self : HuberRegLoss.t) (x : ndarray)
  : ndarray :=
  mk_ndarray [n]
    (map2 Rminus (data (linear_prediction n d (HuberRegLoss.X self) x))
       (data (HuberRegLoss.y self))).

(** * Properties *)

(** ** Comparisons *)

Lemma Rltb_true (a b : R) : a < b -> Rltb a b = true.
Proof. intros H; unfold Rltb; destruct (Rlt_dec a b); [reflexivity | contradiction]. Qed.

Lemma Rltb_false (a b : R) : b <= a -> Rltb a b = false.
Proof. intros H; unfold Rltb; destruct (Rlt_dec a b); [lra | reflexivity]. Qed.

Lemma Rleb_true (a b : R) : a <= b -> Rleb a b = true.
Proof. intros H; unfold Rleb; destruct (Rle_dec a b); [reflexivity | contradiction]. Qed.

Lemma Rleb_false (a b : R) : b < a -> Rleb a b = false.
Proof. intros H; unfold Rleb; destruct (Rle_dec a b); [lra | reflexivity]. Qed.

Lemma Rgeb_true (a b : R) : b <= a -> Rgeb a b = true.
Proof. intros H; unfold Rgeb; now apply Rleb_true. Qed.

Lemma Rgeb_false (a b : R) : a < b -> Rgeb a b = false.
Proof. intros H; unfold Rgeb; now apply Rleb_false. Qed.

Lemma Reqb_false (a b : R) : a <> b -> Reqb a b = false.
Proof. intros H; unfold Reqb; destruct (Req_dec_T a b); [contradiction | reflexivity]. Qed.

Lemma sign_pos (x : R) : 0 < x -> sign x = 1.
Proof.
  intros H; unfold sign.
  rewrite Rltb_false by lra. now rewrite Rltb_true.
Qed.

Lemma sign_neg (x : R) : x < 0 -> sign x = -1.
Proof. intros H; unfold sign. now rewrite Rltb_true. Qed.

Lemma sign_zero : sign 0 = 0.
Proof. unfold sign. now rewrite !Rltb_false by lra. Qed.

Lemma sign_opp (x : R) : sign (- x) = - sign x.
Proof.
  destruct (Rtotal_order x 0) as [H | [H | H]].
  - rewrite (sign_neg x H), sign_pos; lra.
  - subst x. rewrite Ropp_0, sign_zero. lra.
  - rewrite (sign_pos x H), sign_neg; lra.
Qed.

Lemma py_inv_nonzero (s : R) : s <> 0 -> py_inv s = Ok (1 / s).
Proof. intros H; unfold py_inv. now rewrite Reqb_false. Qed.

(** ** The Huber kernels *)

Lemma huber_eval_1d_inner (z k : R) :
  Rabs z <= k -> huber_eval_1d z k = 0.5 * z ^ 2.
Proof. intros H; unfold huber_eval_1d. now rewrite Rleb_true. Qed.

Lemma huber_eval_1d_outer (z k : R) :
  k < Rabs z -> huber_eval_1d z k = k * (Rabs z - 0.5 * k).
Proof. intros H; unfold huber_eval_1d. now rewrite Rleb_false. Qed.

Lemma huber_grad_1d_inner (z k : R) :
  Rabs z <= k -> huber_grad_1d z k = z.
Proof. intros H; unfold huber_grad_1d. now rewrite Rleb_true. Qed.

Lemma huber_grad_1d_outer (z k : R) :
  k < Rabs z -> huber_grad_1d z k = k * sign z.
Proof. intros H; unfold huber_grad_1d. now rewrite Rleb_false. Qed.

Lemma Rabs_sign (z : R) : Rabs z * sign z = z.
Proof.
  destruct (Rtotal_order z 0) as [H | [H | H]].
  - rewrite sign_neg, Rabs_left by lra. lra.
  - subst z. rewrite sign_zero. lra.
  - rewrite sign_pos, Rabs_right by lra. lra.
Qed.

Lemma Rabs_sqr_pow (z : R) : Rabs z * Rabs z = z ^ 2.
Proof.
  unfold Rabs; destruct (Rcase_abs z); lra.
Qed.

(** C5.  For a knot [k >= 0] the Huber eval kernel is [0.5 z^2] for
    [|z| <= k] and [k (|z| - 0.5 k)] beyond, the Huber gradient kernel is
    [z] for [|z| <= k] and [k sign z] beyond, and at [|z| = k] the two
    branches of each kernel give the same value. *)
Theorem huber_kernels_piecewise (z k : R) :
  0 <= k ->
  (Rabs z <= k ->
     huber_eval_1d z k = 0.5 * z ^ 2 /\ huber_grad_1d z k = z) /\
  (k < Rabs z ->
     huber_eval_1d z k = k * (Rabs z - 0.5 * k) /\
     huber_grad_1d z k = k * sign z) /\
  (Rabs z = k ->
     0.5 * z ^ 2 = k * (Rabs z - 0.5 * k) /\ z = k * sign z).
Proof.
  intros _. repeat split.
  - now apply huber_eval_1d_inner.
  - now apply huber_grad_1d_inner.
  - now apply huber_eval_1d_outer.
  - now apply huber_grad_1d_outer.
  - subst k. rewrite <- Rabs_sqr_pow. lra.
  - subst k. now rewrite Rabs_sign.
Qed.

Lemma huber_kernels_piecewise_witness :
  (huber_eval_1d 2 1 = 1 * (Rabs 2 - 0.5 * 1) /\
   huber_grad_1d 2 1 = 1 * sign 2) /\
  (huber_eval_1d 0.5 1 = 0.5 * 0.5 ^ 2 /\ huber_grad_1d 0.5 1 = 0.5).
Proof.
  destruct (huber_kernels_piecewise 2 1) as (_ & Hout & _); [lra |].
  destruct (huber_kernels_piecewise 0.5 1) as (Hin & _ & _); [lra |].
  split.
  - apply Hout. rewrite Rabs_right; lra.
  - apply Hin. rewrite Rabs_right; lra.
Defined.

(** ** [Zero] *)

Lemma zeros_like_data (x : ndarray) :
  Forall (fun v => v = 0) (data (zeros_like x)).
Proof.
  unfold zeros_like; simpl.
  induction (data x) as [| v l IH]; simpl; constructor; auto.
Qed.

Lemma zeros_like_wf (x : ndarray) : wf x -> wf (zeros_like x).
Proof. unfold wf, zeros_like; simpl. now rewrite length_map. Qed.

(** C8.  [Zero] evaluates to 0, its gradient is the array of zeros of the
    shape of the input, its proximal operator returns the input for every
    step, its Lipschitz constant is 0 and it is smooth and proximable. *)
Theorem Zero_contract (x : ndarray) (step : R) :
  eval Zero.make x = Ok 0 /\
  (exists g, grad Zero.make x = Ok (VArr g) /\
             shape g = shape x /\
             length (data g) = length (data x) /\
             Forall (fun v => v = 0) (data g)) /\
  prox Zero.make x step = Ok x /\
  grad_lip Zero.make = Some 0 /\
  is_smooth Zero.make = Ok true /\
  is_proximable Zero.make = Ok true.
Proof.
  repeat split; try reflexivity.
  exists (zeros_like x). repeat split.
  - simpl. now rewrite length_map.
  - apply zeros_like_data.
Qed.

(** ** [Sum] *)

Lemma grad_lip_loop_known (fs : list Func) (ls : list R) (lip : R) :
  map grad_lip fs = map Some ls ->
  Sum.grad_lip_loop fs lip = Some (fold_left Rplus ls lip).
Proof.
  revert ls lip. induction fs as [| f fs IH]; intros [| l ls] lip H;
    simpl in *; try discriminate; auto.
  injection H as Hf Hfs. rewrite Hf. now apply IH.
Qed.

Lemma grad_lip_loop_unknown (fs : list Func) (lip : R) :
  Exists (fun f => grad_lip f = None) fs ->
  Sum.grad_lip_loop fs lip = None.
Proof.
  intros H. revert lip. induction H as [f fs Hf | f fs _ IH]; intros lip; simpl.
  - now rewrite Hf.
  - destruct (grad_lip f); auto.
Qed.

Lemma fold_left_Rplus_acc (l : list R) (a : R) :
  fold_left Rplus l a = a + fold_left Rplus l 0.
Proof.
  revert a. induction l as [| v l IH]; intros a; simpl.
  - lra.
  - rewrite (IH (a + v)), (IH (0 + v)). lra.
Qed.

Lemma sum_list_cons (v : R) (l : list R) : sum_list (v :: l) = v + sum_list l.
Proof. unfold sum_list; simpl. rewrite fold_left_Rplus_acc. lra. Qed.

Lemma sum_list_nil : sum_list [] = 0.
Proof. reflexivity. Qed.

(** C3.  When every component of a [Sum] reports a Lipschitz constant,
    the sum reports their sum; when some component reports [None], the
    sum reports [None], whatever the other components report. *)
Theorem Sum_grad_lip (funcs : list Func) :
  (forall ls, map grad_lip funcs = map Some ls ->
              grad_lip (Sum.make funcs) = Some (sum_list ls)) /\
  (Exists (fun f => grad_lip f = None) funcs ->
   grad_lip (Sum.make funcs) = None /\
   forall l, grad_lip (Sum.make funcs) <> Some l).
Proof.
  split.
  - intros ls H. simpl. unfold Sum.grad_lip.
    now rewrite (grad_lip_loop_known funcs ls 0 H).
  - intros H. simpl. unfold Sum.grad_lip.
    rewrite (grad_lip_loop_unknown funcs 0 H). split; [reflexivity | discriminate].
Qed.

Lemma Sum_grad_lip_witness :
  grad_lip (Sum.make [known_lip 2; known_lip 3]) = Some (sum_list [2; 3]) /\
  grad_lip (Sum.make [known_lip 2; unknown_lip]) = None.
Proof.
  split.
  - apply (proj1 (Sum_grad_lip [known_lip 2; known_lip 3])). reflexivity.
  - apply (proj2 (Sum_grad_lip [known_lip 2; unknown_lip])).
    apply Exists_cons_tl, Exists_cons_hd. reflexivity.
Defined.

(** C10.  A [Sum] of no function evaluates to 0, has the number 0 as its
    gradient, not an array, reports the Lipschitz constant 0, is smooth
    and is not proximable. *)
Theorem Sum_empty (x : ndarray) :
  eval (Sum.make []) x = Ok 0 /\
  grad (Sum.make []) x = Ok (VNum 0) /\
  (forall a, grad (Sum.make []) x <> Ok (VArr a)) /\
  grad_lip (Sum.make []) = Some 0 /\
  is_smooth (Sum.make []) = Ok true /\
  is_proximable (Sum.make []) = Ok false.
Proof.
  repeat split; try reflexivity.
  intros a. simpl. unfold Sum.grad. simpl. discriminate.
Qed.

(** ** Arrays of the same shape *)

Lemma chunks_length (n k : nat) (d : list R) :
  length (chunks n k d) = k.
Proof.
  revert d. induction k as [| k IH]; intros d; simpl; auto.
Qed.

Lemma chunks_concat (n k : nat) (d : list R) :
  length d = (k * n)%nat -> concat (chunks n k d) = d.
Proof.
  revert d. induction k as [| k IH]; intros d H; simpl in *.
  - destruct d; [reflexivity | discriminate].
  - rewrite IH.
    + apply firstn_skipn.
    + rewrite length_skipn. lia.
Qed.

Lemma chunks_Forall_length (n k : nat) (d : list R) :
  length d = (k * n)%nat -> Forall (fun c => length c = n) (chunks n k d).
Proof.
  revert d. induction k as [| k IH]; intros d H; simpl in *; constructor.
  - rewrite length_firstn. lia.
  - apply IH. rewrite length_skipn. lia.
Qed.

Lemma map_id_on {A : Type} (f : A -> A) (P : A -> Prop) (l : list A) :
  (forall a, P a -> f a = a) -> Forall P l -> map f l = l.
Proof.
  intros Hf H. induction H as [| a l Ha _ IH]; simpl; [reflexivity |].
  now rewrite Hf, IH.
Qed.

Lemma expand_same (s : list nat) (d : list R) :
  length d = size_of s -> expand s s d = d.
Proof.
  revert d. induction s as [| a s IH]; intros d H; simpl in *; [reflexivity |].
  rewrite Nat.eqb_refl.
  rewrite (map_id_on _ (fun c => length c = size_of s)).
  - apply chunks_concat. exact H.
  - exact IH.
  - apply chunks_Forall_length. exact H.
Qed.

Lemma bshape_rev_same (s : list nat) : bshape_rev s s = Some s.
Proof.
  induction s as [| a s IH]; simpl; [reflexivity |].
  now rewrite IH, Nat.eqb_refl.
Qed.

Lemma broadcast_shapes_same (s : list nat) : broadcast_shapes s s = Some s.
Proof.
  unfold broadcast_shapes. rewrite bshape_rev_same. simpl.
  now rewrite rev_involutive.
Qed.

Lemma broadcast_to_same (a : ndarray) :
  wf a -> broadcast_to a (shape a) = data a.
Proof.
  intros H. unfold broadcast_to. rewrite Nat.sub_diag. simpl.
  now apply expand_same.
Qed.

Lemma arr_binop_same_shape (f : R -> R -> R) (a b : ndarray) :
  wf a -> wf b -> shape b = shape a ->
  arr_binop f a b = Ok (mk_ndarray (shape a) (map2 f (data a) (data b))).
Proof.
  intros Ha Hb Hs. unfold arr_binop. rewrite Hs, broadcast_shapes_same.
  rewrite <- Hs at 3. now rewrite !broadcast_to_same.
Qed.

Lemma map2_map_r (f : R -> R -> R) (g : R -> R) (l1 l2 : list R) :
  map2 f l1 (map g l2) = map2 (fun u v => f u (g v)) l1 l2.
Proof.
  revert l2. induction l1 as [| u l1 IH]; intros [| v l2]; simpl; auto.
  now rewrite IH.
Qed.

Lemma map2_map_l (f : R -> R -> R) (g : R -> R) (l1 l2 : list R) :
  map2 f (map g l1) l2 = map2 (fun u v => f (g u) v) l1 l2.
Proof.
  revert l2. induction l1 as [| u l1 IH]; intros [| v l2]; simpl; auto.
  now rewrite IH.
Qed.

Lemma map2_diag (f : R -> R -> R) (g h : R -> R) (l : list R) :
  map2 f (map g l) (map h l) = map (fun v => f (g v) (h v)) l.
Proof. induction l as [| v l IH]; simpl; auto. now rewrite IH. Qed.

Lemma map2_same (f : R -> R -> R) (l : list R) :
  map2 f l l = map (fun v => f v v) l.
Proof. induction l as [| v l IH]; simpl; [reflexivity | now rewrite IH]. Qed.

Lemma map2_length (f : R -> R -> R) (l1 l2 : list R) :
  length l1 = length l2 -> length (map2 f l1 l2) = length l1.
Proof.
  revert l2. induction l1 as [| u l1 IH]; intros [| v l2] H; simpl in *;
    try discriminate; auto.
Qed.

Lemma map2_ext (f g : R -> R -> R) (l1 l2 : list R) :
  (forall u v, f u v = g u v) -> map2 f l1 l2 = map2 g l1 l2.
Proof.
  intros H. revert l2. induction l1 as [| u l1 IH]; intros [| v l2]; simpl; auto.
  now rewrite H, IH.
Qed.

(** ** [conj_prox] *)

Lemma conj_prox_nonzero_step (f : Func) (x : ndarray) (s : R) :
  s <> 0 ->
  conj_prox f x s =
    (p <- prox f (arr_div_scal x s) (1 / s) ;; arr_sub x (scal_mul s p)).
Proof.
  intros Hs. unfold conj_prox. now rewrite py_inv_nonzero.
Qed.

Lemma conj_prox_zero_step (f : Func) (x : ndarray) :
  conj_prox f x 0 = Raise ZeroDivisionError.
Proof.
  unfold conj_prox, py_inv, Reqb.
  destruct (Req_dec_T 0 0); [reflexivity | congruence].
Qed.

Lemma conj_prox_entries (f : Func) (x p : ndarray) (s : R) :
  s <> 0 ->
  prox f (arr_div_scal x s) (1 / s) = Ok p ->
  wf x -> wf p -> shape p = shape x ->
  conj_prox f x s =
    Ok (mk_ndarray (shape x)
          (map2 (fun xi pi => xi - s * pi) (data x) (data p))).
Proof.
  intros Hs Hp Hx Hwp Hsh.
  rewrite conj_prox_nonzero_step, Hp by exact Hs. simpl.
  unfold arr_sub. rewrite arr_binop_same_shape; auto.
  - simpl. now rewrite map2_map_r.
  - unfold wf, scal_mul, arr_map; simpl. now rewrite length_map.
Qed.

(** C1.  For a step [s > 0], [conj_prox] returns [x - s * prox(x/s, 1/s)],
    with the [prox] of the object itself, and raises what that [prox]
    raises; when [prox] returns an array of the shape of [x], the entry
    [i] of the result is [x_i - s * p_i]. *)
Theorem conj_prox_moreau (f : Func) (x : ndarray) (s : R) :
  0 < s ->
  conj_prox f x s =
    (p <- prox f (arr_div_scal x s) (1 / s) ;; arr_sub x (scal_mul s p)) /\
  (forall e, prox f (arr_div_scal x s) (1 / s) = Raise e ->
             conj_prox f x s = Raise e) /\
  (forall p, prox f (arr_div_scal x s) (1 / s) = Ok p ->
             wf x -> wf p -> shape p = shape x ->
             conj_prox f x s =
               Ok (mk_ndarray (shape x)
                     (map2 (fun xi pi => xi - s * pi) (data x) (data p)))).
Proof.
  intros Hs.
  assert (Hs' : s <> 0) by lra.
  split; [now apply conj_prox_nonzero_step |]. split.
  - intros e He. rewrite conj_prox_nonzero_step, He by exact Hs'. reflexivity.
  - intros p Hp Hx Hwp Hsh. now apply conj_prox_entries.
Qed.

Lemma conj_prox_moreau_witness :
  0 < 2 /\
  conj_prox Zero.make (vec [2; 4]) 2 =
    Ok (mk_ndarray [2%nat]
          (map2 (fun xi pi => xi - 2 * pi) [2; 4] [2 / 2; 4 / 2])).
Proof.
  assert (H : 0 < 2) by lra.
  split; [exact H |].
  apply (proj2 (proj2 (conj_prox_moreau Zero.make (vec [2; 4]) 2 H))
           (arr_div_scal (vec [2; 4]) 2));
    reflexivity.
Defined.

Lemma map2_self_cancel (s : R) (l : list R) :
  s <> 0 ->
  map2 (fun u v => u - s * (v / s)) l l = map (fun _ => 0) l.
Proof.
  intros Hs. induction l as [| v l IH]; simpl; [reflexivity |].
  rewrite IH. f_equal. field. exact Hs.
Qed.

(** X8.  [conj_prox] of [Zero] divides by the step and multiplies back:
    for a nonzero step [s] it returns the array of the shape of the input
    with the entries [x_i - s * (x_i / s)], in this order of operations;
    with the default step 1, where neither operation rounds, that is the
    array of zeros of the shape of the input (the entries being finite
    numbers). *)
Lemma conj_prox_Zero (x : ndarray) (s : R) :
  wf x ->
  (s <> 0 ->
   conj_prox Zero.make x s =
     Ok (mk_ndarray (shape x)
           (map (fun xi => xi - s * (xi / s)) (data x)))) /\
  conj_prox Zero.make x default_step = Ok (zeros_like x).
Proof.
  intros Hx.
  assert (Hw : forall t, wf (arr_div_scal x t)).
  { intros t. unfold wf, arr_div_scal, arr_map; simpl.
    now rewrite length_map. }
  split.
  - intros Hs.
    rewrite (conj_prox_entries Zero.make x (arr_div_scal x s) s);
      try reflexivity; try assumption; auto.
    simpl. now rewrite map2_map_r, map2_same.
  - unfold default_step.
    rewrite (conj_prox_entries Zero.make x (arr_div_scal x 1) 1);
      try reflexivity; try assumption; auto; try lra.
    unfold zeros_like. f_equal. f_equal. simpl.
    rewrite map2_map_r. apply map2_self_cancel. lra.
Qed.

(** ** [EntrywiseFunc] *)

Lemma reshape_same_size (g : ndarray) (sh : list nat) :
  length (data g) = size_of sh ->
  reshape g sh = Ok (mk_ndarray sh (data g)).
Proof.
  intros H. unfold reshape. rewrite H, Nat.eqb_refl. reflexivity.
Qed.

Lemma reshape_other_size (g : ndarray) (sh : list nat) :
  length (data g) <> size_of sh -> reshape g sh = Raise ValueError.
Proof.
  intros H. unfold reshape.
  destruct (Nat.eqb_spec (size_of sh) (length (data g))); congruence.
Qed.

(** Whatever the private rules are, the public methods hand them the
    flattened input and give their answer the shape of the input. *)
Lemma EntrywiseFunc_grad_reshape
    (_eval : ndarray -> result R) (_grad : ndarray -> result ndarray)
    (_prox : ndarray -> R -> result ndarray) (lip : option R)
    (x g : ndarray) :
  wf x ->
  _grad (flatten x) = Ok g ->
  length (data g) = length (data x) ->
  grad (EntrywiseFunc.make _eval _grad _prox lip) x =
    Ok (VArr (mk_ndarray (shape x) (data g))).
Proof.
  intros Hx Hg Hl. simpl. unfold EntrywiseFunc.grad. rewrite Hg. simpl.
  rewrite reshape_same_size; [reflexivity |]. now rewrite Hl.
Qed.

Lemma EntrywiseFunc_prox_reshape
    (_eval : ndarray -> result R) (_grad : ndarray -> result ndarray)
    (_prox : ndarray -> R -> result ndarray) (lip : option R)
    (x p : ndarray) (step : R) :
  wf x ->
  _prox (flatten x) step = Ok p ->
  length (data p) = length (data x) ->
  prox (EntrywiseFunc.make _eval _grad _prox lip) x step =
    Ok (mk_ndarray (shape x) (data p)).
Proof.
  intros Hx Hp Hl. simpl. unfold EntrywiseFunc.prox. rewrite Hp. simpl.
  rewrite reshape_same_size; [reflexivity |]. now rewrite Hl.
Qed.

(** X12.  [conj_prox] of an entrywise function goes through the [prox]
    that [EntrywiseFunc] overrides: when the private rule applies a
    scalar rule to every entry of a vector, which is all it needs to
    handle, then for a nonzero step and an input of any shape the answer
    has the shape of the input, with the entries
    [x_i - s * rule(x_i / s, 1 / s)]. *)
Lemma conj_prox_EntrywiseFunc
    (_eval : ndarray -> result R) (_grad : ndarray -> result ndarray)
    (_prox : ndarray -> R -> result ndarray) (lip : option R)
    (prox_rule : R -> R -> R) (x : ndarray) (s : R) :
  s <> 0 -> wf x ->
  (forall v t, ndim v = 1%nat ->
     _prox v t = Ok (arr_map (fun u => prox_rule u t) v)) ->
  conj_prox (EntrywiseFunc.make _eval _grad _prox lip) x s =
    Ok (mk_ndarray (shape x)
          (map (fun xi => xi - s * prox_rule (xi / s) (1 / s)) (data x))).
Proof.
  intros Hs Hx Hp.
  rewrite (conj_prox_entries _ x
             (mk_ndarray (shape x)
                (map (fun u => prox_rule u (1 / s))
                   (map (fun v => v / s) (data x)))) s); auto.
  - simpl. now rewrite map_map, map2_map_r, map2_same.
  - rewrite (EntrywiseFunc_prox_reshape _eval _grad _prox lip
               (arr_div_scal x s)
               (arr_map (fun u => prox_rule u (1 / s))
                  (flatten (arr_div_scal x s)))); auto.
    + unfold wf, arr_div_scal, arr_map. simpl. now rewrite length_map.
    + simpl. now rewrite length_map.
  - unfold wf. simpl. now rewrite !length_map.
Qed.

(** C9.  For an array input of any shape, [grad] and [prox] of an
    entrywise function hand the flattened input to the private rule and
    give its answer the shape of the input.  So when the private rules
    apply a scalar rule to every entry of a vector, which is all they
    need to handle, the result is the array of the shape of the input
    whose entries are the scalar rule of the entries of the input. *)
Theorem EntrywiseFunc_shape_preserved
    (_eval : ndarray -> result R) (_grad : ndarray -> result ndarray)
    (_prox : ndarray -> R -> result ndarray) (lip : option R)
    (grad_rule : R -> R) (prox_rule : R -> R -> R)
    (x : ndarray) (step : R) :
  wf x ->
  (forall g, _grad (flatten x) = Ok g ->
     length (data g) = length (data x) ->
     grad (EntrywiseFunc.make _eval _grad _prox lip) x =
       Ok (VArr (mk_ndarray (shape x) (data g)))) /\
  (forall p, _prox (flatten x) step = Ok p ->
     length (data p) = length (data x) ->
     prox (EntrywiseFunc.make _eval _grad _prox lip) x step =
       Ok (mk_ndarray (shape x) (data p))) /\
  ((forall v, ndim v = 1%nat -> _grad v = Ok (arr_map grad_rule v)) ->
   grad (EntrywiseFunc.make _eval _grad _prox lip) x =
     Ok (VArr (mk_ndarray (shape x) (map grad_rule (data x))))) /\
  ((forall v s, ndim v = 1%nat ->
      _prox v s = Ok (arr_map (fun t => prox_rule t s) v)) ->
   prox (EntrywiseFunc.make _eval _grad _prox lip) x step =
     Ok (mk_ndarray (shape x) (map (fun t => prox_rule t step) (data x)))).
Proof.
  intros Hx. split; [| split; [| split]].
  - intros g Hg Hl. now apply EntrywiseFunc_grad_reshape.
  - intros p Hp Hl. now apply EntrywiseFunc_prox_reshape.
  - intros Hg.
    rewrite (EntrywiseFunc_grad_reshape _eval _grad _prox lip x
               (arr_map grad_rule (flatten x))); auto.
    simpl. now rewrite length_map.
  - intros Hp.
    rewrite (EntrywiseFunc_prox_reshape _eval _grad _prox lip x
               (arr_map (fun t => prox_rule t step) (flatten x)) step); auto.
    simpl. now rewrite length_map.
Qed.

Lemma EntrywiseFunc_shape_preserved_witness :
  grad (EntrywiseFunc.make FuncBase._eval
          (fun v => if Nat.eqb (ndim v) 1
                    then Ok (arr_map (fun t => 2 * t) v)
                    else Raise ValueError)
          (fun v s => if Nat.eqb (ndim v) 1
                      then Ok (arr_map (fun t => t - s) v)
                      else Raise ValueError) None)
       (mk_ndarray [2; 1; 2]%nat [1; 2; 3; 4]) =
    Ok (VArr (mk_ndarray [2; 1; 2]%nat
                (map (fun t => 2 * t) [1; 2; 3; 4]))) /\
  prox (EntrywiseFunc.make FuncBase._eval
          (fun v => if Nat.eqb (ndim v) 1
                    then Ok (arr_map (fun t => 2 * t) v)
                    else Raise ValueError)
          (fun v s => if Nat.eqb (ndim v) 1
                      then Ok (arr_map (fun t => t - s) v)
                      else Raise ValueError) None)
       (mk_ndarray [2; 1; 2]%nat [1; 2; 3; 4]) 1 =
    Ok (mk_ndarray [2; 1; 2]%nat (map (fun t => t - 1) [1; 2; 3; 4])).
Proof.
  destruct (EntrywiseFunc_shape_preserved FuncBase._eval
              (fun v => if Nat.eqb (ndim v) 1
                        then Ok (arr_map (fun t => 2 * t) v)
                        else Raise ValueError)
              (fun v s => if Nat.eqb (ndim v) 1
                          then Ok (arr_map (fun t => t - s) v)
                          else Raise ValueError) None
              (fun t => 2 * t) (fun t s => t - s)
              (mk_ndarray [2; 1; 2]%nat [1; 2; 3; 4]) 1 eq_refl)
    as (_ & _ & Hg & Hp).
  split.
  - apply Hg. intros v Hv. now rewrite Hv.
  - apply Hp. intros v s Hv. now rewrite Hv.
Defined.

(** ** [logsig] *)

Lemma mask_and_map (c1 c2 : R -> bool) (d : list R) :
  mask_and (map c1 d) (map c2 d) = map (fun v => c1 v && c2 v) d.
Proof. induction d as [| v d IH]; simpl; [reflexivity | now rewrite IH]. Qed.

(** Writing [f] of the selected entries back at the selected places. *)
Lemma put_take_mask (c : R -> bool) (f g : R -> R) (d : list R) :
  put_mask (map c d) (map g d) (map f (take_mask (map c d) d)) =
    map (fun v => if c v then f v else g v) d.
Proof.
  induction d as [| v d IH]; simpl; [reflexivity |].
  destruct (c v); simpl; now rewrite IH.
Qed.

Lemma logsig_data (x : ndarray) :
  data (logsig x) =
    map (fun v =>
           if Rgeb v 37 then - exp (- v)
           else if Rgeb v (-18) && Rltb v 37 then - log1p (exp (- v))
           else if Rgeb v (-33) && Rltb v (-18) then v - exp v
           else if Rltb v (-33) then v
           else 0) (data x).
Proof.
  unfold logsig, assign, select, vec_sub, arr_neg, arr_exp, arr_log1p,
    arr_map, arr_lt, arr_ge, zeros_like, vec; simpl.
  rewrite !mask_and_map.
  rewrite <- (map_id (take_mask (map (fun v => Rltb v (-33)) (data x))
                        (data x))) at 1.
  rewrite (put_take_mask (fun v => Rltb v (-33)) (fun v => v)).
  rewrite map2_map_r, map2_same.
  rewrite (put_take_mask (fun v => Rgeb v (-33) && Rltb v (-18))
             (fun v => v - exp v)).
  rewrite !map_map.
  rewrite (put_take_mask (fun v => Rgeb v (-18) && Rltb v 37)
             (fun v => - log1p (exp (- v)))).
  rewrite (put_take_mask (fun v => Rgeb v 37) (fun v => - exp (- v))).
  reflexivity.
Qed.

Lemma logsig_regions_spec (v : R) :
  (v < -33 -> logsig_regions v = v) /\
  (-33 <= v < -18 -> logsig_regions v = v - exp v) /\
  (-18 <= v < 37 -> logsig_regions v = - log1p (exp (- v))) /\
  (37 <= v -> logsig_regions v = - exp (- v)).
Proof.
  unfold logsig_regions. repeat split; intros H.
  - now rewrite Rltb_true.
  - rewrite Rltb_false, Rltb_true by lra. reflexivity.
  - rewrite !Rltb_false, Rltb_true by lra. reflexivity.
  - rewrite !Rltb_false by lra. reflexivity.
Qed.

Lemma logsig_masks_regions (v : R) :
  (if Rgeb v 37 then - exp (- v)
   else if Rgeb v (-18) && Rltb v 37 then - log1p (exp (- v))
   else if Rgeb v (-33) && Rltb v (-18) then v - exp v
   else if Rltb v (-33) then v
   else 0) = logsig_regions v.
Proof.
  unfold logsig_regions.
  destruct (Rlt_le_dec v (-33)) as [H0 | H0].
  { rewrite !Rgeb_false, (Rltb_true v (-33)) by lra. reflexivity. }
  rewrite (Rltb_false v (-33)) by lra.
  destruct (Rlt_le_dec v (-18)) as [H1 | H1].
  { rewrite (Rgeb_false v 37), (Rgeb_false v (-18)), (Rgeb_true v (-33)),
      (Rltb_true v (-18)) by lra. reflexivity. }
  rewrite (Rltb_false v (-18)) by lra.
  destruct (Rlt_le_dec v 37) as [H2 | H2].
  { rewrite (Rgeb_false v 37), (Rgeb_true v (-18)), (Rltb_true v 37) by lra.
    reflexivity. }
  rewrite (Rgeb_true v 37), (Rltb_false v 37) by lra. reflexivity.
Qed.

(** C6.  [logsig] keeps the shape of its input and computes every entry
    by the four-region formula with thresholds -33, -18 and 37: the entry
    itself below -33, [x - exp x] from -33 up to -18, [-log1p (exp (-x))]
    from -18 up to 37, and [-exp (-x)] from 37 on. *)
Theorem logsig_four_regions (x : ndarray) :
  shape (logsig x) = shape x /\
  data (logsig x) = map logsig_regions (data x) /\
  (forall v : R,
     (v < -33 -> logsig_regions v = v) /\
     (-33 <= v < -18 -> logsig_regions v = v - exp v) /\
     (-18 <= v < 37 -> logsig_regions v = - log1p (exp (- v))) /\
     (37 <= v -> logsig_regions v = - exp (- v))).
Proof.
  split; [reflexivity |]. split.
  - rewrite logsig_data. apply map_ext. exact logsig_masks_regions.
  - exact logsig_regions_spec.
Qed.

Lemma logsig_four_regions_witness :
  data (logsig (mk_ndarray [2; 2]%nat [-40; -20; 0; 40])) =
    [-40; -20 - exp (-20); - log1p (exp (- 0)); - exp (- 40)].
Proof.
  destruct (logsig_four_regions (mk_ndarray [2; 2]%nat [-40; -20; 0; 40]))
    as (_ & Hd & Hr).
  rewrite Hd. simpl.
  rewrite (proj1 (Hr (-40))) by lra.
  rewrite (proj1 (proj2 (Hr (-20)))) by lra.
  rewrite (proj1 (proj2 (proj2 (Hr 0)))) by lra.
  rewrite (proj2 (proj2 (proj2 (Hr 40)))) by lra.
  reflexivity.
Defined.

(** ** The constructors of the Huber losses *)

Lemma HuberRegLoss_init_raise
    (glip : ndarray -> bool -> result R) (X y : ndarray) (knot : R)
    (fi : bool) (lip : option R) (e : exn) :
  HuberRegLoss.__init__ glip X y knot fi lip = Raise e ->
  lip = None /\ glip X fi = Raise e.
Proof.
  unfold HuberRegLoss.__init__. destruct lip as [l |]; [discriminate |].
  destruct (glip X fi) as [l | e']; simpl; [discriminate |].
  intros H. injection H as ->. auto.
Qed.

Lemma shape_at_raise (a : ndarray) (i : nat) (e : exn) :
  shape_at a i = Raise e -> e = IndexError /\ (ndim a <= i)%nat.
Proof.
  unfold shape_at, ndim. destruct (nth_error (shape a) i) eqn:E; [discriminate |].
  intros H. injection H as <-. split; [reflexivity |].
  now apply nth_error_None.
Qed.

Lemma HuberRegMultiRespLoss_init_raise
    (glip : ndarray -> bool -> result R) (X y : ndarray) (knot : R)
    (fi : bool) (lip : option R) (e : exn) :
  HuberRegMultiRespLoss.__init__ glip X y knot fi lip = Raise e ->
  (e = IndexError /\ (ndim X < 2 \/ ndim y < 2)%nat) \/
  (lip = None /\ glip X fi = Raise e).
Proof.
  unfold HuberRegMultiRespLoss.__init__.
  destruct (shape_at X 1) as [d | e1] eqn:EX.
  2:{ destruct fi; simpl; intros H; injection H as <-;
        left; apply shape_at_raise in EX; destruct EX; split; auto; lia. }
  destruct (shape_at y 1) as [k | e2] eqn:Ey.
  2:{ destruct fi; simpl; intros H; injection H as <-;
        left; apply shape_at_raise in Ey; destruct Ey; split; auto; lia. }
  destruct fi; simpl;
    (destruct lip as [l |]; [discriminate |]);
    (destruct (glip X _) as [l | e'] eqn:El; simpl; [discriminate |]);
    intros H; injection H as ->; right; auto.
Qed.

(** C4 fails as stated: a design matrix of two rows and a response of
    three are accepted by both constructors. *)
Lemma constructors_accept_row_mismatch :
  shape_at (mk_ndarray [2; 1]%nat [1; 2]) 0 = Ok 2%nat /\
  shape_at (vec [1; 2; 3]) 0 = Ok 3%nat /\
  shape_at (mk_ndarray [3; 1]%nat [1; 2; 3]) 0 = Ok 3%nat /\
  ~ raises (HuberRegLoss.__init__ (fun _ _ => Ok 1)
              (mk_ndarray [2; 1]%nat [1; 2]) (vec [1; 2; 3])
              default_knot default_fit_intercept None) /\
  ~ raises (HuberRegMultiRespLoss.__init__ (fun _ _ => Ok 1)
              (mk_ndarray [2; 1]%nat [1; 2])
              (mk_ndarray [3; 1]%nat [1; 2; 3])
              default_knot default_fit_intercept None).
Proof.
  repeat split; try reflexivity; intros [e H]; discriminate H.
Qed.

(** C4, amended.  The constructors compare no shapes: with a design
    matrix and a response of different row counts, [HuberRegLoss] is
    built whenever the Lipschitz constant is given or can be computed from
    the design matrix, and [HuberRegMultiRespLoss] likewise once the
    design matrix and the response both have a second axis; a
    construction that raises does so from the Lipschitz helper or, for
    the multi-response loss, from a missing second axis. *)
Theorem constructors_do_not_compare_rows
    (glip : ndarray -> bool -> result R) (X y : ndarray) (knot : R)
    (fi : bool) (lip : option R) :
  shape_at X 0 <> shape_at y 0 ->
  (forall l, HuberRegLoss.__init__ glip X y knot fi (Some l) =
             Ok (HuberRegLoss.mk fi X y knot l)) /\
  (forall l, glip X fi = Ok l ->
             HuberRegLoss.__init__ glip X y knot fi None =
             Ok (HuberRegLoss.mk fi X y knot l)) /\
  (forall e, HuberRegLoss.__init__ glip X y knot fi lip = Raise e ->
             lip = None /\ glip X fi = Raise e) /\
  (forall l d k, shape_at X 1 = Ok d -> shape_at y 1 = Ok k ->
             HuberRegMultiRespLoss.__init__ glip X y knot fi (Some l) =
             Ok (HuberRegMultiRespLoss.mk fi X y knot
                   (if fi then (d + 1)%nat else d, k) l)) /\
  (forall e, HuberRegMultiRespLoss.__init__ glip X y knot fi lip = Raise e ->
             (e = IndexError /\ (ndim X < 2 \/ ndim y < 2)%nat) \/
             (lip = None /\ glip X fi = Raise e)).
Proof.
  intros _. repeat split.
  - intros l Hl. unfold HuberRegLoss.__init__. now rewrite Hl.
  - now apply HuberRegLoss_init_raise in H.
  - now apply HuberRegLoss_init_raise in H.
  - intros l d k Hd Hk. unfold HuberRegMultiRespLoss.__init__.
    rewrite Hd, Hk. now destruct fi.
  - intros e. apply HuberRegMultiRespLoss_init_raise.
Qed.

Lemma constructors_do_not_compare_rows_witness :
  HuberRegLoss.__init__ (fun _ _ => Raise ValueError)
    (mk_ndarray [2; 1]%nat [1; 2]) (vec [1; 2; 3]) default_knot true
    (Some 4) =
  Ok (HuberRegLoss.mk true (mk_ndarray [2; 1]%nat [1; 2]) (vec [1; 2; 3])
        default_knot 4).
Proof.
  apply (constructors_do_not_compare_rows (fun _ _ => Raise ValueError)
           (mk_ndarray [2; 1]%nat [1; 2]) (vec [1; 2; 3]) default_knot true
           None).
  simpl. discriminate.
Defined.

(** ** The proximal check *)

Section ProxCheckFacts.

Variable kws_t : Type.
Variable opt_result : Type.
Variable opt_x : opt_result -> ndarray.
Variable minimize :
  (ndarray -> result R) -> ndarray -> option (ndarray -> result value) ->
  kws_t -> result opt_result.
Variable no_kws : kws_t.

Lemma get_prox_funcs_no_capabilities (func : Func) (x : ndarray) (step : R) :
  capabilities func = None ->
  get_prox_funcs func false x step = Raise AttributeError.
Proof. intros H. unfold get_prox_funcs. simpl. now rewrite H. Qed.

Lemma numeric_prox_no_capabilities
    (func : Func) (x : ndarray) (step : R) (init : option ndarray)
    (kws : kws_t) :
  capabilities func = None ->
  numeric_prox opt_x minimize func x step init false kws =
    Raise AttributeError.
Proof.
  intros H. unfold numeric_prox.
  now rewrite get_prox_funcs_no_capabilities.
Qed.

Lemma check_prox_one_no_capabilities
    (func : Func) (x p : ndarray) (step rtol atol : R) (b : behavior)
    (kws : kws_t) :
  capabilities func = None ->
  prox func x step = Ok p ->
  check_prox_one opt_x minimize func x step rtol atol b
    (mk_opt_kws None kws) = Raise AttributeError.
Proof.
  intros Hc Hp. unfold check_prox_one. rewrite Hp. simpl.
  now rewrite numeric_prox_no_capabilities.
Qed.

(** X30.  With [force_no_grad] among [opt_kws] the check does not ask
    for [capabilities]: the optimizer minimizes [prox_eval] from the
    analytic value [p], without a gradient, and for vectors of two or
    more entries the mean absolute, the largest and the Euclidean
    discrepancy between [p] and the minimizer are reported, with the
    verdict of [np.allclose]. *)
Lemma check_prox_one_force_no_grad
    (func : Func) (x p : ndarray) (o : opt_result) (m : nat)
    (step rtol atol : R) (kws : kws_t) :
  prox func x step = Ok p ->
  minimize (prox_eval func x step) p None kws = Ok o ->
  shape p = [m] -> shape (opt_x o) = [m] -> wf p -> wf (opt_x o) ->
  (1 < m)%nat ->
  exists mx,
    arr_max (arr_abs (mk_ndarray [m]
                        (map2 Rminus (data p) (data (opt_x o))))) = Ok mx /\
    check_prox_one opt_x minimize func x step rtol atol ret
      (mk_opt_kws (Some true) kws) =
      Ok (mk_errs
            (sum_list (map Rabs (map2 Rminus (data p) (data (opt_x o))))
             / INR m)
            mx
            (sqrt (sum_list
                     (map (fun t => t * t)
                        (map2 Rminus (data p) (data (opt_x o)))))),
          forallb (fun uv => Rleb (Rabs (fst uv - snd uv))
                               (atol + rtol * Rabs (snd uv)))
            (combine (data p) (data (opt_x o)))).
Proof.
  intros Hp Hmin Hsp Hso Hwp Hwo Hm.
  assert (Hlp : length (data p) = m).
  { unfold wf in Hwp. rewrite Hsp in Hwp. simpl in Hwp. lia. }
  assert (Hlo : length (data (opt_x o)) = m).
  { unfold wf in Hwo. rewrite Hso in Hwo. simpl in Hwo. lia. }
  assert (Hsub : arr_sub p (opt_x o) =
                 Ok (mk_ndarray [m] (map2 Rminus (data p) (data (opt_x o))))).
  { unfold arr_sub. rewrite arr_binop_same_shape, Hsp; auto. congruence. }
  assert (Hld : length (map2 Rminus (data p) (data (opt_x o))) = m).
  { rewrite map2_length; congruence. }
  destruct (map2 Rminus (data p) (data (opt_x o))) as [| v l] eqn:Ed.
  { simpl in Hld. lia. }
  exists (fold_left Rmax (map Rabs l) (Rabs v)).
  split; [reflexivity |].
  unfold check_prox_one. rewrite Hp. simpl.
  unfold numeric_prox. simpl. rewrite Hmin. simpl.
  unfold len. rewrite Hso. simpl.
  destruct (Nat.eqb_spec m 1) as [-> | _]; [lia |]. simpl.
  rewrite Hsp, Hso, broadcast_shapes_same. simpl.
  replace (broadcast_to p [m]) with (data p)
    by (rewrite <- Hsp; symmetry; now apply broadcast_to_same).
  replace (broadcast_to (opt_x o) [m]) with (data (opt_x o))
    by (rewrite <- Hso; symmetry; now apply broadcast_to_same).
  rewrite Hsub. simpl.
  unfold arr_mean, arr_sum, norm. simpl.
  simpl in Hld. rewrite <- Hld. simpl. rewrite length_map. reflexivity.
Qed.

End ProxCheckFacts.

(** C2 fails on the code.  Called as documented, with a function of
    [base.py] whose [prox] answers at the first trial point, the proximal
    check raises [AttributeError] before any comparison: [numeric_prox]
    asks the function for [capabilities], which no class defines. *)
Theorem check_prox_impl_raises
    (kws_t opt_result : Type) (opt_x : opt_result -> ndarray)
    (minimize :
       (ndarray -> result R) -> ndarray ->
       option (ndarray -> result value) -> kws_t -> result opt_result)
    (no_kws : kws_t)
    (func : Func) (x p : ndarray) (values : list ndarray)
    (step rtol atol : R) (b : behavior) :
  capabilities func = None ->
  prox func x step = Ok p ->
  check_prox_impl opt_x minimize func (x :: values) step rtol atol b
    (default_opt_kws no_kws) = Raise AttributeError.
Proof.
  intros Hc Hp. unfold check_prox_impl, default_opt_kws. simpl.
  now rewrite (check_prox_one_no_capabilities kws_t opt_result opt_x minimize func x p).
Qed.

Lemma check_prox_impl_raises_witness :
  check_prox_impl (fun o : ndarray => o) (fun _ init _ _ => Ok init)
    Zero.make [vec [1]] default_check_step default_rtol default_atol ret
    (default_opt_kws tt) = Raise AttributeError.
Proof.
  apply (check_prox_impl_raises unit ndarray (fun o => o)
           (fun _ init _ _ => Ok init) tt Zero.make (vec [1]) (vec [1]) []);
    reflexivity.
Defined.

(** ** Matrices as arrays *)

Lemma chunks_seq (n k : nat) (d : list R) :
  chunks n k d = map (fun i => firstn n (skipn (i * n) d)) (seq 0 k).
Proof.
  revert d. induction k as [| k IH]; intros d; [reflexivity |].
  cbn [chunks seq map]. simpl (0 * n)%nat. rewrite skipn_O. f_equal.
  rewrite IH, <- seq_shift, map_map. apply map_ext. intros i.
  rewrite skipn_skipn. do 2 f_equal. simpl. lia.
Qed.

Lemma nth_row (n j i : nat) (d : list R) :
  (j < n)%nat ->
  nth j (firstn n (skipn (i * n) d)) 0 = nth (i * n + j) d 0.
Proof.
  intros H. rewrite nth_firstn.
  destruct (Nat.ltb_spec j n); [| lia]. now rewrite nth_skipn.
Qed.

Lemma chunks_of_concat (n : nat) (ls : list (list R)) :
  Forall (fun l => length l = n) ls ->
  chunks n (length ls) (concat ls) = ls.
Proof.
  intros H. induction H as [| l ls Hl _ IH]; simpl; [reflexivity |].
  rewrite firstn_app, skipn_app, Hl, Nat.sub_diag. simpl.
  rewrite firstn_all2, skipn_all2 by lia. simpl.
  now rewrite app_nil_r, IH.
Qed.

Lemma columns_length (m : nat) (ls : list (list R)) :
  length (columns m ls) = m.
Proof. unfold columns. now rewrite length_map, length_seq. Qed.

Lemma columns_Forall_length (m : nat) (ls : list (list R)) :
  Forall (fun c => length c = length ls) (columns m ls).
Proof.
  unfold columns. apply Forall_forall. intros c Hc.
  apply in_map_iff in Hc. destruct Hc as (j & <- & _).
  now rewrite length_map.
Qed.

Lemma chunks_unit (k : nat) (d : list R) :
  length d = k -> map (fun l => nth 0 l 0) (chunks 1 k d) = d.
Proof.
  revert d. induction k as [| k IH]; intros [| v d] H; simpl in *;
    try discriminate; [reflexivity |].
  f_equal. apply IH. lia.
Qed.

Lemma transpose_data_vector (k : nat) (d : list R) :
  length d = k -> transpose_data [k] d = d.
Proof.
  intros H. simpl. unfold columns. simpl.
  rewrite app_nil_r, map_map. simpl. now apply chunks_unit.
Qed.

Lemma transpose_data_matrix (n k : nat) (d : list R) :
  length d = (n * k)%nat ->
  transpose_data [n; k] d = concat (columns k (chunks k n d)).
Proof.
  intros H. cbn [transpose_data].
  replace (size_of [k]) with k by (simpl; lia).
  rewrite (map_id_on _ (fun c => length c = k)); [reflexivity | |].
  - intros r Hr. now apply transpose_data_vector.
  - now apply chunks_Forall_length.
Qed.

Lemma map2_map_both {A : Type} (f : R -> R -> R) (g h : A -> R) (l : list A) :
  map2 f (map g l) (map h l) = map (fun a => f (g a) (h a)) l.
Proof. induction l as [| a l IH]; simpl; [reflexivity | now rewrite IH]. Qed.

Lemma list_by_index (l : list R) :
  l = map (fun i => nth i l 0) (seq 0 (length l)).
Proof.
  induction l as [| v l IH]; [reflexivity |].
  cbn [length seq map nth]. f_equal.
  rewrite <- seq_shift, map_map. exact IH.
Qed.

Lemma sum_list_scale (c : R) (l : list R) :
  sum_list (map (Rmult c) l) = c * sum_list l.
Proof.
  induction l as [| v l IH]; simpl.
  - rewrite sum_list_nil. lra.
  - rewrite !sum_list_cons, IH. lra.
Qed.

Lemma dot_scale (c : R) (u v : list R) :
  dot (map (Rmult c) u) v = c * dot u v.
Proof.
  unfold dot. rewrite map2_map_l, <- sum_list_scale. f_equal.
  revert v. induction u as [| a u IH]; intros [| b v]; simpl; auto.
  rewrite IH. f_equal. lra.
Qed.

Lemma dot_zeros (u : list R) (m : nat) : dot u (repeat 0 m) = 0.
Proof.
  unfold dot. revert m. induction u as [| a u IH]; intros [| m]; simpl; auto.
  rewrite sum_list_cons, IH. lra.
Qed.

(** A column of a matrix against a vector, by indices. *)
Lemma dot_column (n d j : nat) (X : ndarray) (g : list R) :
  (j < d)%nat -> length g = n ->
  dot (map (fun l => nth j l 0) (chunks d n (data X))) g =
    sum_list (map (fun i => entry d X i j * nth i g 0) (seq 0 n)).
Proof.
  intros Hj Hg. unfold dot.
  rewrite chunks_seq, map_map.
  rewrite (list_by_index g) at 1. rewrite Hg, map2_map_both.
  f_equal. apply map_ext. intros i. unfold entry.
  now rewrite nth_row.
Qed.

(** A row of a matrix against a vector, by indices. *)
Lemma dot_row (d i : nat) (X : ndarray) (b : list R) :
  length b = d -> (i * d + d <= length (data X))%nat ->
  dot (firstn d (skipn (i * d) (data X))) b =
    sum_list (map (fun j => entry d X i j * nth j b 0) (seq 0 d)).
Proof.
  intros Hb HX. unfold dot, entry.
  assert (Hr : length (firstn d (skipn (i * d) (data X))) = d)
    by (rewrite length_firstn, length_skipn; lia).
  rewrite (list_by_index b) at 1.
  rewrite (list_by_index (firstn d (skipn (i * d) (data X)))) at 1.
  rewrite Hb, Hr, map2_map_both. f_equal.
  apply map_ext_in. intros j Hj. apply in_seq in Hj.
  rewrite nth_row by lia. reflexivity.
Qed.

Lemma matmul_matrix_vector (a b : ndarray) (n k : nat) :
  shape a = [n; k] -> shape b = [k] ->
  matmul a b =
    Ok (mk_ndarray [n] (map (fun row => dot row (data b))
                          (chunks k n (data a)))).
Proof.
  intros Ha Hb. unfold matmul. now rewrite Ha, Hb, Nat.eqb_refl.
Qed.

Lemma Xt_times_vector (X g : ndarray) (n d : nat) (c : R) :
  shape X = [n; d] -> wf X -> shape g = [n] -> length (data g) = n ->
  matmul (scal_mul c (transpose X)) g =
    Ok (mk_ndarray [d] (map (Rmult c) (Xt_dot n d X (data g)))).
Proof.
  intros HX HwX Hg Hlg.
  assert (HlX : length (data X) = (n * d)%nat).
  { unfold wf in HwX. rewrite HX in HwX. simpl in HwX. lia. }
  rewrite (matmul_matrix_vector _ g d n); [| simpl; now rewrite HX | exact Hg].
  f_equal. f_equal. simpl. rewrite HX, transpose_data_matrix by exact HlX.
  rewrite concat_map.
  assert (Hc : length (map (map (Rmult c)) (columns d (chunks d n (data X))))
               = d) by now rewrite length_map, columns_length.
  rewrite <- Hc at 1. rewrite chunks_of_concat.
  - unfold columns, Xt_dot. rewrite !map_map.
    apply map_ext_in. intros j Hj. apply in_seq in Hj.
    rewrite dot_scale. f_equal. apply dot_column; [lia | exact Hlg].
  - apply Forall_forall. intros l Hl. apply in_map_iff in Hl.
    destruct Hl as (col & <- & Hcol). rewrite length_map.
    pose proof (columns_Forall_length d (chunks d n (data X))) as HF.
    rewrite Forall_forall in HF. rewrite (HF col Hcol).
    apply chunks_length.
Qed.

Lemma huber_eval_1d_even (z k : R) :
  huber_eval_1d (- z) k = huber_eval_1d z k.
Proof.
  unfold huber_eval_1d. rewrite Rabs_Ropp.
  replace ((- z) ^ 2) with (z ^ 2) by lra. reflexivity.
Qed.

Lemma huber_grad_1d_odd (z k : R) :
  huber_grad_1d (- z) k = - huber_grad_1d z k.
Proof.
  unfold huber_grad_1d. rewrite Rabs_Ropp, sign_opp.
  destruct (Rleb (Rabs z) k); lra.
Qed.

Lemma sum_list_opp (f : R -> R) (l : list R) :
  sum_list (map (fun v => - f v) l) = - sum_list (map f l).
Proof.
  induction l as [| v l IH]; simpl.
  - rewrite sum_list_nil. lra.
  - rewrite !sum_list_cons, IH. lra.
Qed.

Lemma map2_zeros_minus {A : Type} (cs : list A) (l : list R) :
  length cs = length l ->
  map2 Rminus (map (fun _ => 0) cs) l = map Ropp l.
Proof.
  revert cs. induction l as [| v l IH]; intros [| c cs] H; simpl in *;
    try discriminate; [reflexivity |].
  rewrite IH by lia. f_equal. lra.
Qed.

(** The prediction of sample [i]: the features of the sample against the
    coefficients after the first, plus the first coefficient. *)
Lemma linear_prediction_entry (n d i : nat) (X x : ndarray) :
  shape X = [n; d] -> wf X -> shape x = [S d] -> wf x -> (i < n)%nat ->
  nth i (data (linear_prediction n d X x)) 0 =
    sum_list (map (fun j => entry d X i j * nth (S j) (data x) 0) (seq 0 d))
    + nth 0 (data x) 0.
Proof.
  intros HX HwX Hx Hwx Hi.
  unfold wf in HwX, Hwx. rewrite HX in HwX. rewrite Hx in Hwx.
  simpl in HwX, Hwx.
  destruct (data x) as [| b beta] eqn:E; [discriminate Hwx |].
  unfold linear_prediction. cbn [data]. rewrite E. cbn [tl hd nth].
  rewrite chunks_seq, map_map.
  rewrite (nth_indep _ 0
             ((fun k => dot (firstn d (skipn (k * d) (data X))) beta + b)
                0%nat))
    by (rewrite length_map, length_seq; exact Hi).
  rewrite (map_nth (fun k => dot (firstn d (skipn (k * d) (data X))) beta + b)).
  rewrite seq_nth by exact Hi. simpl (0 + i)%nat.
  rewrite dot_row; [reflexivity | simpl in Hwx; lia | nia].
Qed.

Section HuberRegLossFacts.

Variable self : HuberRegLoss.t.
Variable x : ndarray.
Variables n d : nat.

Hypothesis fit : HuberRegLoss.fit_intercept self = true.
Hypothesis X_shape : shape (HuberRegLoss.X self) = [n; d].
Hypothesis X_wf : wf (HuberRegLoss.X self).
Hypothesis y_shape : shape (HuberRegLoss.y self) = [n].
Hypothesis y_wf : wf (HuberRegLoss.y self).
Hypothesis x_shape : shape x = [S d].
Hypothesis x_wf : wf x.

Lemma y_length : length (data (HuberRegLoss.y self)) = n.
Proof. unfold wf in y_wf. rewrite y_shape in y_wf. simpl in y_wf. lia. Qed.

Lemma prediction_ok :
  safe_data_mat_coef_dot (HuberRegLoss.X self) x true = Ok (linear_prediction n d (HuberRegLoss.X self) x).
Proof.
  unfold safe_data_mat_coef_dot. rewrite x_shape.
  unfold wf in x_wf. rewrite x_shape in x_wf.
  destruct (data x) as [| b beta] eqn:E; [discriminate x_wf |].
  rewrite (matmul_matrix_vector _ _ n d); [| exact X_shape | reflexivity].
  simpl. unfold linear_prediction, arr_map. simpl. rewrite E, map_map. reflexivity.
Qed.

Lemma residual_ok : arr_sub (linear_prediction n d (HuberRegLoss.X self) x)
    (HuberRegLoss.y self) = Ok (residual_of n d self x).
Proof.
  unfold arr_sub. rewrite arr_binop_same_shape.
  - reflexivity.
  - unfold wf, linear_prediction. simpl. rewrite length_map, chunks_length. lia.
  - exact y_wf.
  - now rewrite y_shape.
Qed.

Lemma residual_length : length (data (residual_of n d self x)) = n.
Proof.
  unfold residual_of. simpl. rewrite map2_length.
  - now rewrite length_map, chunks_length.
  - now rewrite length_map, chunks_length, y_length.
Qed.

Lemma HuberRegLoss_grad_value :
  (0 < n)%nat ->
  HuberRegLoss._grad self x =
    Ok (mk_ndarray [S d]
          (arr_mean (huber_grad (residual_of n d self x) (HuberRegLoss.knot self)) ::
           map (Rmult (1 / INR n))
             (Xt_dot n d (HuberRegLoss.X self)
                (data (huber_grad (residual_of n d self x) (HuberRegLoss.knot self)))))).
Proof.
  intros Hn. unfold HuberRegLoss._grad.
  rewrite fit, prediction_ok. simpl. rewrite residual_ok. simpl.
  unfold shape_at. rewrite X_shape. simpl.
  rewrite py_inv_nonzero by (apply not_0_INR; lia). simpl.
  rewrite (Xt_times_vector _ _ n d); auto.
  unfold huber_grad, _vec_huber_grad, safe_vectorize, arr_map. cbn [data].
  rewrite length_map. apply residual_length.
Qed.

Lemma HuberRegLoss_eval_value :
  (0 < n)%nat ->
  HuberRegLoss._eval self x =
    Ok (1 / INR n * huber_eval (residual_of n d self x) (HuberRegLoss.knot self)).
Proof.
  intros Hn. unfold HuberRegLoss._eval.
  rewrite fit, prediction_ok. simpl.
  unfold shape_at. rewrite X_shape. simpl.
  rewrite py_inv_nonzero by (apply not_0_INR; lia). simpl.
  now rewrite residual_ok.
Qed.

Lemma residual_at_zeros :
  data x = repeat 0 (S d) ->
  data (residual_of n d self x) = map Ropp (data (HuberRegLoss.y self)).
Proof.
  intros Hx. unfold residual_of, linear_prediction. simpl. rewrite Hx. simpl.
  rewrite (map_ext _ (fun _ => 0)) by (intros r; rewrite dot_zeros; lra).
  apply map2_zeros_minus. now rewrite chunks_length, y_length.
Qed.

End HuberRegLossFacts.

(** C7.  For [HuberRegLoss] with an intercept, a design matrix of [n > 0]
    rows and [d] columns, a response of [n] entries and [d + 1]
    coefficients: the residual is the prediction minus the response; the
    gradient is the vector of length [d + 1] whose first entry is the
    mean of [g] and whose other entries are [(1/n) X^T g], where [g] is
    the Huber gradient kernel of the residual; at the zero coefficients
    the value is [(1/n)] times the sum of the Huber kernel of the
    responses, and the first entry of the gradient is the mean of the
    Huber gradient kernel of the responses with the opposite sign, the
    residual being minus the response there. *)
Theorem HuberRegLoss_grad_layout
    (self : HuberRegLoss.t) (x : ndarray) (n d : nat) :
  HuberRegLoss.fit_intercept self = true ->
  shape (HuberRegLoss.X self) = [n; d] -> wf (HuberRegLoss.X self) ->
  shape (HuberRegLoss.y self) = [n] -> wf (HuberRegLoss.y self) ->
  shape x = [S d] -> wf x ->
  (0 < n)%nat ->
  safe_data_mat_coef_dot (HuberRegLoss.X self) x true =
    Ok (linear_prediction n d (HuberRegLoss.X self) x) /\
  arr_sub (linear_prediction n d (HuberRegLoss.X self) x)
    (HuberRegLoss.y self) = Ok (residual_of n d self x) /\
  grad (HuberRegLoss.as_Func self) x =
    Ok (VArr
          (mk_ndarray [S d]
             (arr_mean (huber_grad (residual_of n d self x)
                          (HuberRegLoss.knot self)) ::
              map (Rmult (1 / INR n))
                (Xt_dot n d (HuberRegLoss.X self)
                   (data (huber_grad (residual_of n d self x)
                            (HuberRegLoss.knot self))))))) /\
  length (Xt_dot n d (HuberRegLoss.X self)
            (data (huber_grad (residual_of n d self x)
                     (HuberRegLoss.knot self)))) = d /\
  (data x = repeat 0 (S d) ->
   eval (HuberRegLoss.as_Func self) x =
     Ok (1 / INR n *
         sum_list (map (fun yi => huber_eval_1d yi (HuberRegLoss.knot self))
                     (data (HuberRegLoss.y self)))) /\
   arr_mean (huber_grad (residual_of n d self x) (HuberRegLoss.knot self)) =
     - (sum_list (map (fun yi => huber_grad_1d yi (HuberRegLoss.knot self))
                    (data (HuberRegLoss.y self)))
        / INR n)).
Proof.
  intros Hfit HX HwX Hy Hwy Hx Hwx Hn.
  split; [now apply prediction_ok |].
  split; [now apply residual_ok |].
  split.
  { simpl. unfold FuncBase.grad.
    now rewrite (HuberRegLoss_grad_value self x n d). }
  split.
  { unfold Xt_dot. now rewrite length_map, length_seq. }
  intros Hz.
  pose proof (residual_at_zeros self x n d Hy Hwy Hz) as Hr.
  split.
  - simpl. unfold FuncBase.eval.
    rewrite (HuberRegLoss_eval_value self x n d) by assumption.
    do 2 f_equal.
    unfold huber_eval, _vec_huber_eval, safe_vectorize, arr_sum, arr_map.
    cbn [data]. rewrite Hr, map_map. f_equal.
    apply map_ext. intros v. apply huber_eval_1d_even.
  - unfold arr_mean, arr_sum, huber_grad, _vec_huber_grad, safe_vectorize,
      arr_map. cbn [data].
    rewrite length_map, Hr, length_map, map_map.
    rewrite (y_length self n Hy Hwy).
    rewrite (map_ext _ (fun v => - huber_grad_1d v (HuberRegLoss.knot self)))
      by (intros v; apply huber_grad_1d_odd).
    rewrite sum_list_opp. unfold Rdiv. ring.
Qed.

Lemma HuberRegLoss_grad_layout_witness :
  grad (HuberRegLoss.as_Func
          (HuberRegLoss.mk true (mk_ndarray [2; 1]%nat [1; 2])
             (vec [1; 3]) 1 0))
       (zeros 2) =
    Ok (VArr
          (mk_ndarray [2%nat]
             (arr_mean
                (huber_grad
                   (residual_of 2 1
                      (HuberRegLoss.mk true (mk_ndarray [2; 1]%nat [1; 2])
                         (vec [1; 3]) 1 0)
                      (zeros 2)) 1) ::
              map (Rmult (1 / INR 2))
                (Xt_dot 2 1 (mk_ndarray [2; 1]%nat [1; 2])
                   (data
                      (huber_grad
                         (residual_of 2 1
                            (HuberRegLoss.mk true
                               (mk_ndarray [2; 1]%nat [1; 2])
                               (vec [1; 3]) 1 0)
                            (zeros 2)) 1)))))) /\
  arr_mean
    (huber_grad
       (residual_of 2 1
          (HuberRegLoss.mk true (mk_ndarray [2; 1]%nat [1; 2])
             (vec [1; 3]) 1 0)
          (zeros 2)) 1) =
    - (sum_list [huber_grad_1d 1 1; huber_grad_1d 3 1] / INR 2).
Proof.
  pose proof (HuberRegLoss_grad_layout
                (HuberRegLoss.mk true (mk_ndarray [2; 1]%nat [1; 2])
                   (vec [1; 3]) 1 0)
                (zeros 2) 2 1) as H.
  destruct H as (_ & _ & H & _ & Hz); try reflexivity; try lia.
  split; [exact H |].
  apply Hz. reflexivity.
Defined.

(** ** The array operations on small inputs *)

Example transpose_2x3 :
  transpose (mk_ndarray [2; 3]%nat [1; 2; 3; 4; 5; 6]) =
    mk_ndarray [3; 2]%nat [1; 4; 2; 5; 3; 6].
Proof. reflexivity. Qed.

Example transpose_vector : transpose (vec [1; 2; 3]) = vec [1; 2; 3].
Proof. reflexivity. Qed.

Example broadcast_column_row :
  arr_add (mk_ndarray [2; 1]%nat [1; 2]) (vec [10; 20; 30]) =
    Ok (mk_ndarray [2; 3]%nat
          [1 + 10; 1 + 20; 1 + 30; 2 + 10; 2 + 20; 2 + 30]).
Proof. reflexivity. Qed.

Example broadcast_mismatch :
  arr_sub (vec [1; 2]) (vec [1; 2; 3]) = Raise ValueError.
Proof. reflexivity. Qed.

Example broadcast_scalar_array :
  arr_sub (mk_ndarray [] [5]) (vec [1; 2]) =
    Ok (vec [5 - 1; 5 - 2]).
Proof. reflexivity. Qed.

Example matmul_2x2_vector :
  matmul (mk_ndarray [2; 2]%nat [1; 2; 3; 4]) (vec [5; 6]) =
    Ok (vec [0 + 1 * 5 + 2 * 6; 0 + 3 * 5 + 4 * 6]).
Proof. reflexivity. Qed.

Example reshape_wrong_size :
  reshape (vec [1; 2; 3]) [2; 2]%nat = Raise ValueError.
Proof. reflexivity. Qed.

Example Sum_grad_of_two :
  grad (Sum.make [Zero.make; Zero.make]) (vec [1; 2]) =
    Ok (VArr (vec [0 + 0 + 0; 0 + 0 + 0])).
Proof. reflexivity. Qed.

Example Sum_prox_not_implemented :
  prox (Sum.make [Zero.make]) (vec [1]) 1 = Raise NotImplementedError.
Proof. reflexivity. Qed.

(** The row counts that the constructor let through surface when the
    loss is evaluated. *)
Example HuberRegLoss_mismatch_at_eval :
  eval (HuberRegLoss.as_Func
          (HuberRegLoss.mk true (mk_ndarray [2; 1]%nat [1; 2])
             (vec [1; 2; 3]) default_knot 1))
       (zeros 2) = Raise ValueError.
Proof.
  simpl. unfold FuncBase.eval, HuberRegLoss._eval. simpl.
  unfold py_inv. rewrite Reqb_false by (simpl; lra). reflexivity.
Qed.

(** * Further properties *)

(** ** [Sum]: evaluation, gradient and smoothness *)

Lemma sum_evals_values (fs : list Func) (x : ndarray) (vs : list R) (acc : R) :
  map (fun f => eval f x) fs = map Ok vs ->
  Sum.sum_evals fs x acc = Ok (fold_left Rplus vs acc).
Proof.
  revert vs acc. induction fs as [| f fs IH]; intros [| v vs] acc H;
    simpl in *; try discriminate; [reflexivity |].
  injection H as Hf Hfs. rewrite Hf. simpl. now apply IH.
Qed.

Lemma sum_evals_shift (fs : list Func) (x : ndarray) (acc : R) :
  Sum.sum_evals fs x acc = (w <- Sum.sum_evals fs x 0 ;; Ok (acc + w)).
Proof.
  revert acc. induction fs as [| f fs IH]; intros acc; simpl.
  - f_equal. lra.
  - destruct (eval f x) as [v | e]; simpl; [| reflexivity].
    rewrite (IH (acc + v)), (IH (0 + v)).
    destruct (Sum.sum_evals fs x 0) as [w | e]; simpl; [| reflexivity].
    f_equal. lra.
Qed.

Lemma sum_evals_app (fs gs : list Func) (x : ndarray) (acc : R) :
  Sum.sum_evals (fs ++ gs) x acc =
    (v <- Sum.sum_evals fs x acc ;; Sum.sum_evals gs x v).
Proof.
  revert acc. induction fs as [| f fs IH]; intros acc; simpl; [reflexivity |].
  destruct (eval f x) as [v | e]; simpl; [apply IH | reflexivity].
Qed.

Lemma sum_evals_Ok_all (fs : list Func) (x : ndarray) (acc v : R) :
  Sum.sum_evals fs x acc = Ok v ->
  Forall (fun f => exists w, eval f x = Ok w) fs.
Proof.
  revert acc. induction fs as [| f fs IH]; intros acc H; simpl in *;
    constructor.
  - destruct (eval f x) as [w | e]; [eauto | discriminate].
  - destruct (eval f x) as [w | e]; [| discriminate]. simpl in H. eauto.
Qed.

Lemma sum_grads_Ok_all (fs : list Func) (x : ndarray) (acc v : value) :
  Sum.sum_grads fs x acc = Ok v ->
  Forall (fun f => exists g, grad f x = Ok g) fs.
Proof.
  revert acc. induction fs as [| f fs IH]; intros acc H; simpl in *;
    constructor.
  - destruct (grad f x) as [g | e]; [eauto | discriminate].
  - destruct (grad f x) as [g | e]; [| discriminate]. simpl in H.
    destruct (value_add acc g) as [a | e]; [| discriminate]. simpl in H. eauto.
Qed.

(** X1.  The value of a [Sum] is the sum of the values of its components,
    taken in their order, when every component returns a value. *)
Theorem Sum_eval_is_sum (fs : list Func) (x : ndarray) (vs : list R) :
  map (fun f => eval f x) fs = map Ok vs ->
  eval (Sum.make fs) x = Ok (sum_list vs).
Proof.
  intros H. simpl. unfold Sum.eval, sum_list. now apply sum_evals_values.
Qed.

Lemma Sum_eval_is_sum_witness :
  eval (Sum.make [Zero.make; Zero.make; Zero.make]) (vec [1; 2]) =
    Ok (sum_list [0; 0; 0]).
Proof.
  apply (Sum_eval_is_sum [Zero.make; Zero.make; Zero.make] (vec [1; 2])
           [0; 0; 0]).
  reflexivity.
Defined.

(** X2.  A [Sum] returns a value, or a gradient, only when every one of
    its components does: a component that raises is never skipped. *)
Theorem Sum_returns_only_if_all_do (fs : list Func) (x : ndarray) :
  (forall v, eval (Sum.make fs) x = Ok v ->
             Forall (fun f => exists w, eval f x = Ok w) fs) /\
  (forall g, grad (Sum.make fs) x = Ok g ->
             Forall (fun f => exists h, grad f x = Ok h) fs).
Proof.
  split.
  - intros v H. exact (sum_evals_Ok_all fs x 0 v H).
  - intros g H. exact (sum_grads_Ok_all fs x (VNum 0) g H).
Qed.

Lemma Sum_returns_only_if_all_do_witness :
  Forall (fun f => exists w, eval f (vec [1]) = Ok w) [Zero.make; Zero.make].
Proof.
  apply (proj1 (Sum_returns_only_if_all_do [Zero.make; Zero.make] (vec [1]))
           (0 + 0 + 0)).
  reflexivity.
Defined.

Lemma all_smooth_true_iff (fs : list Func) :
  Sum.all_smooth fs = Ok true <-> Forall (fun f => is_smooth f = Ok true) fs.
Proof.
  induction fs as [| f fs IH]; simpl.
  - split; [constructor | reflexivity].
  - split.
    + intros H. destruct (is_smooth f) as [[|] | e] eqn:E; simpl in H;
        try discriminate.
      constructor; [exact E | now apply IH].
    + intros H. inversion H as [| f' fs' Hf Hfs]; subst.
      rewrite Hf. simpl. now apply IH.
Qed.

(** X3.  A [Sum] is smooth exactly when each of its components answers
    that it is smooth. *)
Theorem Sum_is_smooth_true_iff (fs : list Func) :
  is_smooth (Sum.make fs) = Ok true <->
  Forall (fun f => is_smooth f = Ok true) fs.
Proof. simpl. unfold Sum.is_smooth. apply all_smooth_true_iff. Qed.

Lemma all_smooth_app (fs gs : list Func) :
  Sum.all_smooth (fs ++ gs) =
    (b <- Sum.all_smooth fs ;; if b then Sum.all_smooth gs else Ok false).
Proof.
  induction fs as [| f fs IH]; simpl; [reflexivity |].
  destruct (is_smooth f) as [[|] | e]; simpl; auto.
Qed.

Lemma grad_lip_loop_shift (fs : list Func) (lip : R) :
  Sum.grad_lip_loop fs lip =
    option_map (Rplus lip) (Sum.grad_lip_loop fs 0).
Proof.
  revert lip. induction fs as [| f fs IH]; intros lip; simpl.
  - f_equal. lra.
  - destruct (grad_lip f) as [l |]; [| reflexivity].
    rewrite (IH (lip + l)), (IH (0 + l)).
    destruct (Sum.grad_lip_loop fs 0) as [w |]; simpl; [| reflexivity].
    f_equal. lra.
Qed.

Lemma grad_lip_loop_app (fs gs : list Func) (lip : R) :
  Sum.grad_lip_loop (fs ++ gs) lip =
    match Sum.grad_lip_loop fs lip with
    | Some l => Sum.grad_lip_loop gs l
    | None => None
    end.
Proof.
  revert lip. induction fs as [| f fs IH]; intros lip; simpl; [reflexivity |].
  destruct (grad_lip f); [apply IH | reflexivity].
Qed.

(** X4.  Sums nest.  The sum of two sums is smooth exactly when the sum
    of all their components is, it raises on evaluation in the same cases
    and with the same exception, and its Lipschitz constant is unknown in
    the same cases.  Its value is the value of the first sum plus the
    value of the second, added in this order from [0], and so is its
    Lipschitz constant; these are the components added in another order
    of operations than the sum of all of them adds them. *)
Theorem Sum_of_sums (fs gs : list Func) (x : ndarray) :
  is_smooth (Sum.make [Sum.make fs; Sum.make gs]) =
    is_smooth (Sum.make (fs ++ gs)) /\
  (forall e,
     eval (Sum.make [Sum.make fs; Sum.make gs]) x = Raise e <->
     eval (Sum.make (fs ++ gs)) x = Raise e) /\
  (forall a b,
     eval (Sum.make fs) x = Ok a -> eval (Sum.make gs) x = Ok b ->
     eval (Sum.make [Sum.make fs; Sum.make gs]) x = Ok (0 + a + b)) /\
  (grad_lip (Sum.make [Sum.make fs; Sum.make gs]) = None <->
   grad_lip (Sum.make (fs ++ gs)) = None) /\
  (forall a b,
     grad_lip (Sum.make fs) = Some a -> grad_lip (Sum.make gs) = Some b ->
     grad_lip (Sum.make [Sum.make fs; Sum.make gs]) = Some (0 + a + b)).
Proof.
  split; [| split; [| split; [| split]]]; simpl.
  - unfold Sum.is_smooth. simpl. unfold Sum.is_smooth.
    rewrite all_smooth_app.
    destruct (Sum.all_smooth fs) as [[|] | e]; simpl; try reflexivity.
    destruct (Sum.all_smooth gs) as [[|] | e]; reflexivity.
  - intros e. unfold Sum.eval. simpl. unfold Sum.eval.
    rewrite sum_evals_app.
    destruct (Sum.sum_evals fs x 0) as [v | e1]; simpl; [| tauto].
    rewrite (sum_evals_shift gs x v).
    destruct (Sum.sum_evals gs x 0) as [w | e2]; simpl; [| tauto].
    split; discriminate.
  - intros a b Ha Hb. unfold Sum.eval. cbn [Sum.sum_evals eval Sum.make].
    rewrite Ha. cbn [bind]. rewrite Hb. reflexivity.
  - unfold Sum.grad_lip. simpl. unfold Sum.grad_lip.
    rewrite grad_lip_loop_app.
    destruct (Sum.grad_lip_loop fs 0) as [l |]; [| tauto].
    rewrite (grad_lip_loop_shift gs l).
    destruct (Sum.grad_lip_loop gs 0) as [w |]; simpl; [| tauto].
    split; discriminate.
  - intros a b Ha Hb. unfold Sum.grad_lip.
    cbn [Sum.grad_lip_loop grad_lip Sum.make].
    rewrite Ha, Hb. reflexivity.
Qed.

Lemma Sum_of_sums_witness :
  eval (Sum.make [Sum.make [Zero.make]; Sum.make [Zero.make; Zero.make]])
       (vec [1; 2]) =
    Ok (0 + (0 + 0) + (0 + 0 + 0)) /\
  grad_lip (Sum.make [Sum.make [Zero.make];
                      Sum.make [Zero.make; Zero.make]]) =
    Some (0 + (0 + 0) + (0 + 0 + 0)).
Proof.
  destruct (Sum_of_sums [Zero.make] [Zero.make; Zero.make] (vec [1; 2]))
    as (_ & _ & He & _ & Hl).
  split; [apply He | apply Hl]; reflexivity.
Defined.

Lemma nth_map2 (f : R -> R -> R) (l1 l2 : list R) (i : nat) :
  (i < length l1)%nat -> length l1 = length l2 ->
  nth i (map2 f l1 l2) 0 = f (nth i l1 0) (nth i l2 0).
Proof.
  revert l2 i. induction l1 as [| u l1 IH]; intros [| v l2] i Hi Hl;
    simpl in *; try lia.
  destruct i as [| i]; [reflexivity |]. apply IH; lia.
Qed.

Lemma nth_map_lt (f : R -> R) (l : list R) (i : nat) :
  (i < length l)%nat -> nth i (map f l) 0 = f (nth i l 0).
Proof.
  revert i. induction l as [| u l IH]; intros i Hi; simpl in *; [lia |].
  destruct i as [| i]; [reflexivity |]. apply IH; lia.
Qed.

Lemma sum_grads_arrays (fs : list Func) (x : ndarray) (gs : list ndarray)
    (a : ndarray) (sh : list nat) :
  map (fun f => grad f x) fs = map (fun g => Ok (VArr g)) gs ->
  Forall (fun g => shape g = sh /\ wf g) gs ->
  shape a = sh -> wf a ->
  exists r,
    Sum.sum_grads fs x (VArr a) = Ok (VArr r) /\ shape r = sh /\ wf r /\
    forall i, (i < size_of sh)%nat ->
      nth i (data r) 0 =
        nth i (data a) 0 + sum_list (map (fun g => nth i (data g) 0) gs).
Proof.
  revert gs a. induction fs as [| f fs IH]; intros [| g gs] a H HF Ha Hwa;
    simpl in H; try discriminate.
  - exists a. repeat split; auto. intros i _. simpl. rewrite sum_list_nil. lra.
  - injection H as Hf Hfs. inversion HF as [| g' gs' [Hg Hwg] HF']; subst.
    cbn [Sum.sum_grads]. rewrite Hf. simpl. unfold arr_add.
    rewrite arr_binop_same_shape; auto. simpl.
    assert (Hl : length (data a) = length (data g)).
    { unfold wf in Hwa, Hwg. rewrite Hwa, Hwg. now rewrite Hg. }
    destruct (IH gs (mk_ndarray (shape a)
                       (map2 Rplus (data a) (data g))) Hfs HF')
      as (r & Hr & Hsr & Hwr & Hi).
    + reflexivity.
    + unfold wf. simpl. rewrite map2_length by exact Hl. exact Hwa.
    + exists r. repeat split; auto. intros i Hlt.
      rewrite (Hi i Hlt). simpl.
      rewrite nth_map2 by (unfold wf in Hwa; lia || exact Hl).
      rewrite sum_list_cons. lra.
Qed.

(** X5.  When the components of a [Sum] return gradients that are arrays
    of one shape, the gradient of the sum is the array of that shape
    whose entries are the sums of the entries of the components'
    gradients. *)
Theorem Sum_grad_is_entrywise_sum
    (f : Func) (fs : list Func) (x : ndarray)
    (g : ndarray) (gs : list ndarray) (sh : list nat) :
  map (fun h => grad h x) (f :: fs) = map (fun a => Ok (VArr a)) (g :: gs) ->
  Forall (fun a => shape a = sh /\ wf a) (g :: gs) ->
  exists r,
    grad (Sum.make (f :: fs)) x = Ok (VArr r) /\ shape r = sh /\ wf r /\
    forall i, (i < size_of sh)%nat ->
      nth i (data r) 0 = sum_list (map (fun a => nth i (data a) 0) (g :: gs)).
Proof.
  intros H HF. simpl in H. injection H as Hf Hfs.
  inversion HF as [| g' gs' [Hg Hwg] HF']; subst.
  destruct (sum_grads_arrays fs x gs (arr_map (fun t => 0 + t) g) (shape g)
              Hfs HF')
    as (r & Hr & Hsr & Hwr & Hi).
  - reflexivity.
  - unfold wf, arr_map. simpl. rewrite length_map. exact Hwg.
  - exists r. repeat split; auto.
    + simpl. unfold Sum.grad. simpl. rewrite Hf. simpl. exact Hr.
    + intros i Hlt. rewrite (Hi i Hlt). simpl.
      rewrite nth_map_lt by (unfold wf in Hwg; lia).
      rewrite sum_list_cons. lra.
Qed.

Lemma Sum_grad_is_entrywise_sum_witness :
  exists r,
    grad (Sum.make [Zero.make; Zero.make]) (vec [1; 2]) = Ok (VArr r) /\
    shape r = [2%nat] /\ wf r /\
    forall i, (i < size_of [2%nat])%nat ->
      nth i (data r) 0 =
        sum_list (map (fun a => nth i (data a) 0)
                    [zeros_like (vec [1; 2]); zeros_like (vec [1; 2])]).
Proof.
  apply (Sum_grad_is_entrywise_sum Zero.make [Zero.make] (vec [1; 2])
           (zeros_like (vec [1; 2])) [zeros_like (vec [1; 2])] [2%nat]).
  - reflexivity.
  - repeat constructor.
Defined.

(** X6.  [Zero] is neutral in a [Sum]: putting it in front changes
    neither the value, nor the Lipschitz constant, nor the smoothness;
    and next to a function whose gradient has the shape of the input it
    leaves that gradient as it is. *)
Theorem Zero_neutral_in_Sum (fs : list Func) (f : Func) (x g : ndarray) :
  eval (Sum.make (Zero.make :: fs)) x = eval (Sum.make fs) x /\
  grad_lip (Sum.make (Zero.make :: fs)) = grad_lip (Sum.make fs) /\
  is_smooth (Sum.make (Zero.make :: fs)) = is_smooth (Sum.make fs) /\
  (grad f x = Ok (VArr g) -> wf x -> wf g -> shape g = shape x ->
   grad (Sum.make [Zero.make; f]) x = Ok (VArr g)).
Proof.
  repeat split.
  - simpl. unfold Sum.eval. simpl. unfold FuncBase.eval, Zero._eval. simpl.
    now replace (0 + 0) with 0 by lra.
  - simpl. unfold Sum.grad_lip. simpl.
    now replace (0 + 0) with 0 by lra.
  - intros Hg Hx Hwg Hs. simpl. unfold Sum.grad. simpl.
    unfold FuncBase.grad, Zero._grad. simpl. rewrite Hg. simpl.
    unfold arr_add. rewrite arr_binop_same_shape.
    + simpl. do 2 f_equal. destruct g as [sg dg]. simpl in *. subst sg.
      f_equal. rewrite map_map.
      assert (Hl : length (data x) = length dg).
      { unfold wf in Hx, Hwg. simpl in Hwg. congruence. }
      clear Hg Hx Hwg. revert dg Hl.
      induction (data x) as [| u l IH]; intros [| v dg] Hl; simpl in *;
        try discriminate; [reflexivity |].
      rewrite IH by lia. f_equal. lra.
    + unfold wf, arr_map. simpl. rewrite !length_map. exact Hx.
    + exact Hwg.
    + simpl. exact Hs.
Qed.

Lemma Zero_neutral_in_Sum_witness :
  grad (Sum.make [Zero.make; Zero.make]) (vec [3; 4]) =
    Ok (VArr (zeros_like (vec [3; 4]))).
Proof.
  apply (Zero_neutral_in_Sum [] Zero.make (vec [3; 4])
           (zeros_like (vec [3; 4]))); reflexivity.
Defined.

(** X7.  A [Sum] has no proximal operator: [prox] raises
    [NotImplementedError] and [conj_prox] never returns, whatever the
    components, the point and the step. *)
Theorem Sum_has_no_prox (fs : list Func) (x : ndarray) (s : R) :
  prox (Sum.make fs) x s = Raise NotImplementedError /\
  (s <> 0 -> conj_prox (Sum.make fs) x s = Raise NotImplementedError) /\
  (forall r, conj_prox (Sum.make fs) x s <> Ok r).
Proof.
  split; [reflexivity |]. split.
  - intros Hs. now rewrite conj_prox_nonzero_step.
  - intros r. destruct (Req_dec_T s 0) as [-> | Hs].
    + now rewrite conj_prox_zero_step.
    + now rewrite conj_prox_nonzero_step.
Qed.

Lemma Sum_has_no_prox_witness :
  conj_prox (Sum.make [Zero.make]) (vec [1]) 2 = Raise NotImplementedError.
Proof.
  apply (Sum_has_no_prox [Zero.make] (vec [1]) 2). lra.
Defined.

(** ** [conj_prox] and [EntrywiseFunc]: edge cases *)

Lemma conj_prox_Zero_witness :
  conj_prox Zero.make (mk_ndarray [2; 1]%nat [1; 4]) 49 =
    Ok (mk_ndarray [2; 1]%nat
          (map (fun xi => xi - 49 * (xi / 49)) [1; 4])) /\
  conj_prox Zero.make (mk_ndarray [2; 1]%nat [1; 4]) default_step =
    Ok (zeros_like (mk_ndarray [2; 1]%nat [1; 4])).
Proof.
  destruct (conj_prox_Zero (mk_ndarray [2; 1]%nat [1; 4]) 49 eq_refl)
    as (Hs & Hd).
  split; [apply Hs; lra | exact Hd].
Defined.

Lemma conj_prox_EntrywiseFunc_witness :
  conj_prox
    (EntrywiseFunc.make FuncBase._eval FuncBase._grad
       (fun v t => if Nat.eqb (ndim v) 1
                   then Ok (arr_map (fun u => u - t) v)
                   else Raise ValueError) None)
    (mk_ndarray [1; 2]%nat [3; 5]) 2 =
    Ok (mk_ndarray [1; 2]%nat
          (map (fun xi => xi - 2 * (xi / 2 - 1 / 2)) [3; 5])).
Proof.
  apply (conj_prox_EntrywiseFunc FuncBase._eval FuncBase._grad
           (fun v t => if Nat.eqb (ndim v) 1
                       then Ok (arr_map (fun u => u - t) v)
                       else Raise ValueError) None
           (fun u t => u - t) (mk_ndarray [1; 2]%nat [3; 5]) 2).
  - lra.
  - reflexivity.
  - intros v t Hv. now rewrite Hv.
Defined.

(** X10.  When the private rule of an entrywise function returns an
    array with another number of entries than its input, [grad] and
    [prox] raise [ValueError]: the answer cannot take the shape of the
    input. *)
Theorem EntrywiseFunc_wrong_size
    (_eval : ndarray -> result R) (_grad : ndarray -> result ndarray)
    (_prox : ndarray -> R -> result ndarray) (lip : option R)
    (x g : ndarray) (step : R) :
  wf x -> length (data g) <> length (data x) ->
  (_grad (flatten x) = Ok g ->
   grad (EntrywiseFunc.make _eval _grad _prox lip) x = Raise ValueError) /\
  (_prox (flatten x) step = Ok g ->
   prox (EntrywiseFunc.make _eval _grad _prox lip) x step = Raise ValueError).
Proof.
  intros Hx Hl.
  assert (Hr : reshape g (shape x) = Raise ValueError).
  { apply reshape_other_size. unfold wf in Hx. congruence. }
  split; intros H; simpl.
  - unfold EntrywiseFunc.grad. rewrite H. simpl. now rewrite Hr.
  - unfold EntrywiseFunc.prox. rewrite H. simpl. now rewrite Hr.
Qed.

Lemma EntrywiseFunc_wrong_size_witness :
  grad (EntrywiseFunc.make FuncBase._eval (fun v => Ok (vec [0]))
          FuncBase._prox None)
       (mk_ndarray [2; 1]%nat [1; 2]) = Raise ValueError.
Proof.
  apply (EntrywiseFunc_wrong_size FuncBase._eval (fun v => Ok (vec [0]))
           FuncBase._prox None (mk_ndarray [2; 1]%nat [1; 2]) (vec [0]) 1).
  - reflexivity.
  - simpl. lia.
  - reflexivity.
Defined.

(** X11.  An entrywise function sees the entries of its input only: the
    value of an array is the value of its flattening, and the entries of
    its gradient and of its proximal point are those computed for the
    flattening. *)
Theorem EntrywiseFunc_entries_only
    (_eval : ndarray -> result R) (_grad : ndarray -> result ndarray)
    (_prox : ndarray -> R -> result ndarray) (lip : option R)
    (x : ndarray) (step : R) :
  wf x ->
  eval (EntrywiseFunc.make _eval _grad _prox lip) x =
    eval (EntrywiseFunc.make _eval _grad _prox lip) (flatten x) /\
  (forall r, grad (EntrywiseFunc.make _eval _grad _prox lip) x = Ok (VArr r) ->
     grad (EntrywiseFunc.make _eval _grad _prox lip) (flatten x) =
       Ok (VArr (flatten r))) /\
  (forall r, prox (EntrywiseFunc.make _eval _grad _prox lip) x step = Ok r ->
     prox (EntrywiseFunc.make _eval _grad _prox lip) (flatten x) step =
       Ok (flatten r)).
Proof.
  intros Hx. unfold wf in Hx.
  assert (Hre : forall g r, reshape g (shape x) = Ok r ->
                reshape g [length (data x)] = Ok (flatten r)).
  { intros g r. unfold reshape.
    destruct (Nat.eqb_spec (size_of (shape x)) (length (data g))) as [E | E];
      [| discriminate].
    intros H. injection H as <-. simpl.
    rewrite Nat.mul_1_r, Hx, E, Nat.eqb_refl. unfold flatten. simpl.
    now rewrite <- E, <- Hx. }
  split; [reflexivity |]. split; intros r; simpl.
  - unfold EntrywiseFunc.grad.
    change (flatten (flatten x)) with (flatten x).
    destruct (_grad (flatten x)) as [g | e]; simpl; [| discriminate].
    destruct (reshape g (shape x)) as [r' | e] eqn:E; simpl; [| discriminate].
    intros H. injection H as <-. now rewrite (Hre g r' E).
  - unfold EntrywiseFunc.prox.
    change (flatten (flatten x)) with (flatten x).
    destruct (_prox (flatten x) step) as [g | e]; simpl; [| discriminate].
    intros H. now apply Hre.
Qed.

Lemma EntrywiseFunc_entries_only_witness :
  eval (EntrywiseFunc.make (fun v => Ok (arr_sum v)) FuncBase._grad
          FuncBase._prox None) (mk_ndarray [2; 1]%nat [1; 2]) =
  eval (EntrywiseFunc.make (fun v => Ok (arr_sum v)) FuncBase._grad
          FuncBase._prox None) (flatten (mk_ndarray [2; 1]%nat [1; 2])).
Proof.
  apply (EntrywiseFunc_entries_only (fun v => Ok (arr_sum v)) FuncBase._grad
           FuncBase._prox None (mk_ndarray [2; 1]%nat [1; 2]) 1).
  reflexivity.
Defined.

(** ** The Huber kernels: shape of the loss *)

Ltac huber_cases :=
  unfold huber_eval_1d, huber_grad_1d, Rleb, sign, Rltb in *;
  repeat match goal with
         | |- context [Rle_dec ?a ?b] => destruct (Rle_dec a b)
         | |- context [Rlt_dec ?a ?b] => destruct (Rlt_dec a b)
         end;
  unfold Rabs in *;
  repeat match goal with
         | |- context [Rcase_abs ?a] => destruct (Rcase_abs a)
         | H : context [Rcase_abs ?a] |- _ => destruct (Rcase_abs a)
         end.

Lemma huber_eval_1d_nonneg (z k : R) : 0 <= k -> 0 <= huber_eval_1d z k.
Proof. intros Hk. huber_cases; nra. Qed.

Lemma huber_first_order (z h k : R) :
  0 <= k ->
  0 <= huber_eval_1d (z + h) k - huber_eval_1d z k - h * huber_grad_1d z k /\
  huber_eval_1d (z + h) k - huber_eval_1d z k - h * huber_grad_1d z k
    <= 0.5 * h ^ 2.
Proof. intros Hk. split; huber_cases; nra. Qed.

(** X13.  The Huber kernel is even and its gradient kernel is odd, for
    every knot. *)
Theorem huber_kernels_symmetry (z k : R) :
  huber_eval_1d (- z) k = huber_eval_1d z k /\
  huber_grad_1d (- z) k = - huber_grad_1d z k.
Proof. split; [apply huber_eval_1d_even | apply huber_grad_1d_odd]. Qed.

(** X14.  For a knot [k >= 0] the Huber kernel is nonnegative and grows
    at most linearly: it is at most the absolute loss [k |z|]. *)
Theorem huber_eval_1d_bounds (z k : R) :
  0 <= k ->
  0 <= huber_eval_1d z k /\
  huber_eval_1d z k <= k * Rabs z.
Proof. intros Hk. split; huber_cases; nra. Qed.

Lemma huber_eval_1d_bounds_witness :
  0 <= huber_eval_1d 3 1 /\
  huber_eval_1d 3 1 <= 1 * Rabs 3.
Proof. apply (huber_eval_1d_bounds 3 1). lra. Defined.

(** X15.  For a knot [k >= 0] the Huber gradient kernel clips its
    argument to the interval from [-k] to [k]; in particular it is at
    most [k] in absolute value. *)
Theorem huber_grad_1d_clips (z k : R) :
  0 <= k ->
  huber_grad_1d z k = Rmax (- k) (Rmin k z) /\
  Rabs (huber_grad_1d z k) <= k.
Proof.
  intros Hk. split.
  - huber_cases; unfold Rmin; destruct (Rle_dec k z); unfold Rmax;
      match goal with
      | |- context [Rle_dec ?a ?b] => destruct (Rle_dec a b)
      end; lra.
  - huber_cases; lra.
Qed.

Lemma huber_grad_1d_clips_witness :
  huber_grad_1d (-5) 2 = Rmax (- 2) (Rmin 2 (-5)) /\
  Rabs (huber_grad_1d (-5) 2) <= 2.
Proof. apply (huber_grad_1d_clips (-5) 2). lra. Defined.

(** X16.  Over the reals, for a knot [k >= 0], the function that the
    formulas of the Huber kernel define is convex and its gradient is
    1-Lipschitz, with the function of the gradient kernel as its
    gradient: it lies above its tangent at every point, by at most half
    the squared distance. *)
Theorem huber_convex_and_smooth (z h k : R) :
  0 <= k ->
  0 <= huber_eval_1d (z + h) k - huber_eval_1d z k - h * huber_grad_1d z k /\
  huber_eval_1d (z + h) k - huber_eval_1d z k - h * huber_grad_1d z k
    <= 0.5 * h ^ 2.
Proof. apply huber_first_order. Qed.

Lemma huber_convex_and_smooth_witness :
  0 <= huber_eval_1d (0.5 + 2) 1 - huber_eval_1d 0.5 1
       - 2 * huber_grad_1d 0.5 1 /\
  huber_eval_1d (0.5 + 2) 1 - huber_eval_1d 0.5 1 - 2 * huber_grad_1d 0.5 1
    <= 0.5 * 2 ^ 2.
Proof. apply (huber_convex_and_smooth 0.5 2 1). lra. Defined.

(** X17.  For a knot [k >= 0] the Huber gradient kernel is the
    derivative of the Huber kernel at every point, the knot included. *)
Theorem huber_grad_1d_is_derivative (z k : R) :
  0 <= k ->
  derivable_pt_lim (fun t => huber_eval_1d t k) z (huber_grad_1d z k).
Proof.
  intros Hk eps Heps. exists (mkposreal eps Heps). simpl. intros h Hh Hlt.
  destruct (huber_first_order z h k Hk) as [Hlo Hhi].
  set (q := (huber_eval_1d (z + h) k - huber_eval_1d z k) / h
            - huber_grad_1d z k).
  assert (Hq : q * h =
               huber_eval_1d (z + h) k - huber_eval_1d z k
               - h * huber_grad_1d z k) by (unfold q; field; exact Hh).
  rewrite <- Hq in Hlo, Hhi.
  apply Rabs_def1.
  - destruct (Rtotal_order h 0) as [Hn | [Hz | Hp]]; [| lra |].
    + rewrite Rabs_left in Hlt by lra. nra.
    + rewrite Rabs_right in Hlt by lra. nra.
  - destruct (Rtotal_order h 0) as [Hn | [Hz | Hp]]; [| lra |].
    + rewrite Rabs_left in Hlt by lra. nra.
    + rewrite Rabs_right in Hlt by lra. nra.
Qed.

Lemma huber_grad_1d_is_derivative_witness :
  derivable_pt_lim (fun t => huber_eval_1d t 1) 1 (huber_grad_1d 1 1).
Proof. apply (huber_grad_1d_is_derivative 1 1). lra. Defined.

(** X18.  For a knot [k >= 0] the Huber gradient kernel is nondecreasing
    and 1-Lipschitz. *)
Theorem huber_grad_1d_monotone_lipschitz (a b k : R) :
  0 <= k -> a <= b ->
  0 <= huber_grad_1d b k - huber_grad_1d a k /\
  huber_grad_1d b k - huber_grad_1d a k <= b - a.
Proof. intros Hk Hab. split; huber_cases; lra. Qed.

Lemma huber_grad_1d_monotone_lipschitz_witness :
  0 <= huber_grad_1d 3 1 - huber_grad_1d (-2) 1 /\
  huber_grad_1d 3 1 - huber_grad_1d (-2) 1 <= 3 - -2.
Proof. apply (huber_grad_1d_monotone_lipschitz (-2) 3 1); lra. Defined.

(** ** [HuberRegLoss]: values, edge cases and the Lipschitz constant *)

Lemma py_inv_Ok (s c : R) : py_inv s = Ok c -> s <> 0 /\ c = 1 / s.
Proof.
  unfold py_inv, Reqb. destruct (Req_dec_T s 0); [discriminate |].
  intros H. injection H as <-. auto.
Qed.

Lemma py_inv_zero : py_inv 0 = Raise ZeroDivisionError.
Proof.
  unfold py_inv, Reqb. destruct (Req_dec_T 0 0); [reflexivity | congruence].
Qed.

Lemma sum_list_nonneg (l : list R) :
  Forall (fun v => 0 <= v) l -> 0 <= sum_list l.
Proof.
  intros H. induction H as [| v l Hv _ IH].
  - rewrite sum_list_nil. lra.
  - rewrite sum_list_cons. lra.
Qed.

Lemma huber_eval_nonneg (a : ndarray) (k : R) :
  0 <= k -> 0 <= huber_eval a k.
Proof.
  intros Hk. unfold huber_eval, _vec_huber_eval, safe_vectorize, arr_sum,
    arr_map. cbn [data].
  apply sum_list_nonneg, Forall_forall. intros v Hv.
  apply in_map_iff in Hv. destruct Hv as (u & <- & _).
  now apply huber_eval_1d_nonneg.
Qed.

Lemma inv_INR_pos (n : nat) : INR n <> 0 -> 0 < 1 / INR n.
Proof.
  intros H. pose proof (pos_INR n) as Hp.
  apply Rdiv_lt_0_compat; lra.
Qed.

(** X19.  With a knot [k >= 0], a value returned by [HuberRegLoss] is
    nonnegative, whatever the data, the coefficients and the intercept
    flag. *)
Theorem HuberRegLoss_eval_nonneg (self : HuberRegLoss.t) (x : ndarray) (v : R) :
  0 <= HuberRegLoss.knot self ->
  eval (HuberRegLoss.as_Func self) x = Ok v ->
  0 <= v.
Proof.
  intros Hk. simpl. unfold FuncBase.eval, HuberRegLoss._eval.
  destruct (safe_data_mat_coef_dot _ x _) as [pred | e]; simpl;
    [| discriminate].
  destruct (shape_at _ 0) as [n | e]; simpl; [| discriminate].
  destruct (py_inv (INR n)) as [c | e] eqn:Ec; simpl; [| discriminate].
  destruct (arr_sub pred _) as [resid | e]; simpl; [| discriminate].
  intros H. injection H as <-.
  apply py_inv_Ok in Ec. destruct Ec as [Hn ->].
  pose proof (inv_INR_pos n Hn).
  pose proof (huber_eval_nonneg resid (HuberRegLoss.knot self) Hk).
  nra.
Qed.

Lemma HuberRegLoss_eval_nonneg_witness :
  0 <= 1 / INR 2 *
       huber_eval
         (residual_of 2 1
            (HuberRegLoss.mk true (mk_ndarray [2; 1]%nat [1; 2])
               (vec [1; 3]) 1 0)
            (zeros 2)) 1.
Proof.
  apply (HuberRegLoss_eval_nonneg
           (HuberRegLoss.mk true (mk_ndarray [2; 1]%nat [1; 2])
              (vec [1; 3]) 1 0)
           (zeros 2)).
  - simpl. lra.
  - simpl. unfold FuncBase.eval.
    apply (HuberRegLoss_eval_value
             (HuberRegLoss.mk true (mk_ndarray [2; 1]%nat [1; 2])
                (vec [1; 3]) 1 0)
             (zeros 2) 2 1); try reflexivity. lia.
Defined.

(** X20.  With a design matrix of no rows, [HuberRegLoss] returns neither
    a value nor a gradient; once the prediction is computed, the value
    raises [ZeroDivisionError] from the division by the number of
    samples. *)
Theorem HuberRegLoss_no_rows (self : HuberRegLoss.t) (x : ndarray) :
  shape_at (HuberRegLoss.X self) 0 = Ok 0%nat ->
  (forall v, eval (HuberRegLoss.as_Func self) x <> Ok v) /\
  (forall g, grad (HuberRegLoss.as_Func self) x <> Ok g) /\
  (forall pred,
     safe_data_mat_coef_dot (HuberRegLoss.X self) x
       (HuberRegLoss.fit_intercept self) = Ok pred ->
     eval (HuberRegLoss.as_Func self) x = Raise ZeroDivisionError).
Proof.
  intros Hn. repeat split.
  - intros v. simpl. unfold FuncBase.eval, HuberRegLoss._eval.
    destruct (safe_data_mat_coef_dot _ x _) as [pred | e]; simpl;
      [| discriminate].
    rewrite Hn. simpl. rewrite py_inv_zero. discriminate.
  - intros g. simpl. unfold FuncBase.grad, HuberRegLoss._grad.
    destruct (safe_data_mat_coef_dot _ x _) as [pred | e]; simpl;
      [| discriminate].
    destruct (arr_sub pred _) as [resid | e]; simpl; [| discriminate].
    rewrite Hn. simpl. rewrite py_inv_zero. discriminate.
  - intros pred Hp. simpl. unfold FuncBase.eval, HuberRegLoss._eval.
    rewrite Hp. simpl. rewrite Hn. simpl. now rewrite py_inv_zero.
Qed.

Lemma HuberRegLoss_no_rows_witness :
  eval (HuberRegLoss.as_Func
          (HuberRegLoss.mk false (mk_ndarray [0; 2]%nat []) (vec []) 1 0))
       (vec [1; 1]) = Raise ZeroDivisionError.
Proof.
  apply (proj2 (proj2
           (HuberRegLoss_no_rows
              (HuberRegLoss.mk false (mk_ndarray [0; 2]%nat []) (vec []) 1 0)
              (vec [1; 1]) eq_refl))
           (mk_ndarray [0%nat] [])).
  reflexivity.
Defined.

(** X21.  A constructed [HuberRegLoss] keeps the data it was given and
    always reports a Lipschitz constant: the one passed as [lip], or else
    the one the helper computed from the design matrix; it is never
    unknown. *)
Theorem HuberRegLoss_grad_lip_known
    (glip : ndarray -> bool -> result R) (X y : ndarray) (knot : R)
    (fi : bool) (lip : option R) (obj : HuberRegLoss.t) :
  HuberRegLoss.__init__ glip X y knot fi lip = Ok obj ->
  HuberRegLoss.X obj = X /\ HuberRegLoss.y obj = y /\
  HuberRegLoss.knot obj = knot /\ HuberRegLoss.fit_intercept obj = fi /\
  (exists l, grad_lip (HuberRegLoss.as_Func obj) = Some l /\
             match lip with
             | Some l' => l = l'
             | None => glip X fi = Ok l
             end).
Proof.
  unfold HuberRegLoss.__init__. destruct lip as [l |].
  - intros H. injection H as <-. simpl. repeat split. now exists l.
  - destruct (glip X fi) as [l | e]; simpl; [| discriminate].
    intros H. injection H as <-. simpl. repeat split. now exists l.
Qed.

Lemma HuberRegLoss_grad_lip_known_witness :
  exists l,
    grad_lip (HuberRegLoss.as_Func
                (HuberRegLoss.mk true (mk_ndarray [1; 1]%nat [1]) (vec [2])
                   default_knot 7)) = Some l /\ l = 7.
Proof.
  apply (HuberRegLoss_grad_lip_known (fun _ _ => Raise ValueError)
           (mk_ndarray [1; 1]%nat [1]) (vec [2]) default_knot true (Some 7)).
  reflexivity.
Defined.

Lemma matvec_entry (n d i : nat) (X : ndarray) (b : list R) :
  shape X = [n; d] -> wf X -> length b = d -> (i < n)%nat ->
  nth i (map (fun row => dot row b) (chunks d n (data X))) 0 =
    sum_list (map (fun j => entry d X i j * nth j b 0) (seq 0 d)).
Proof.
  intros HX HwX Hb Hi.
  unfold wf in HwX. rewrite HX in HwX. simpl in HwX.
  rewrite chunks_seq, map_map.
  rewrite (nth_indep _ 0
             ((fun k => dot (firstn d (skipn (k * d) (data X))) b) 0%nat))
    by (rewrite length_map, length_seq; exact Hi).
  rewrite (map_nth (fun k => dot (firstn d (skipn (k * d) (data X))) b)).
  rewrite seq_nth by exact Hi. simpl (0 + i)%nat.
  apply dot_row; [exact Hb | nia].
Qed.

(** X22.  For [HuberRegLoss] without an intercept, a design matrix of
    [n > 0] rows and [d] columns, a response of [n] entries and [d]
    coefficients: the residual of sample [i] is the product of its
    features and the coefficients minus its response, the value is
    [(1/n)] times the Huber kernel summed over the residuals, and the
    gradient is the vector [(1/n) X^T g] of length [d], with no entry
    for an intercept. *)
Theorem HuberRegLoss_no_intercept
    (self : HuberRegLoss.t) (x : ndarray) (n d : nat) :
  HuberRegLoss.fit_intercept self = false ->
  shape (HuberRegLoss.X self) = [n; d] -> wf (HuberRegLoss.X self) ->
  shape (HuberRegLoss.y self) = [n] -> wf (HuberRegLoss.y self) ->
  shape x = [d] -> wf x ->
  (0 < n)%nat ->
  exists resid,
    shape resid = [n] /\ length (data resid) = n /\
    (forall i, (i < n)%nat ->
       nth i (data resid) 0 =
         sum_list (map (fun j => entry d (HuberRegLoss.X self) i j
                                 * nth j (data x) 0) (seq 0 d))
         - nth i (data (HuberRegLoss.y self)) 0) /\
    eval (HuberRegLoss.as_Func self) x =
      Ok (1 / INR n * huber_eval resid (HuberRegLoss.knot self)) /\
    grad (HuberRegLoss.as_Func self) x =
      Ok (VArr
            (mk_ndarray [d]
               (map (Rmult (1 / INR n))
                  (Xt_dot n d (HuberRegLoss.X self)
                     (data (huber_grad resid (HuberRegLoss.knot self))))))).
Proof.
  intros Hfit HX HwX Hy Hwy Hx Hwx Hn.
  assert (Hlx : length (data x) = d).
  { unfold wf in Hwx. rewrite Hx in Hwx. simpl in Hwx. lia. }
  assert (Hly : length (data (HuberRegLoss.y self)) = n).
  { unfold wf in Hwy. rewrite Hy in Hwy. simpl in Hwy. lia. }
  set (pd := map (fun row => dot row (data x))
               (chunks d n (data (HuberRegLoss.X self)))).
  assert (Hlp : length pd = n)
    by (unfold pd; now rewrite length_map, chunks_length).
  assert (Hpred : safe_data_mat_coef_dot (HuberRegLoss.X self) x false =
                  Ok (mk_ndarray [n] pd)).
  { unfold safe_data_mat_coef_dot.
    now rewrite (matmul_matrix_vector _ _ n d). }
  assert (Hres : arr_sub (mk_ndarray [n] pd) (HuberRegLoss.y self) =
                 Ok (mk_ndarray [n]
                       (map2 Rminus pd (data (HuberRegLoss.y self))))).
  { unfold arr_sub. rewrite arr_binop_same_shape; auto.
    unfold wf. simpl. lia. }
  assert (Hinv : py_inv (INR n) = Ok (1 / INR n))
    by (apply py_inv_nonzero, not_0_INR; lia).
  assert (Hsh : shape_at (HuberRegLoss.X self) 0 = Ok n)
    by (unfold shape_at; now rewrite HX).
  exists (mk_ndarray [n] (map2 Rminus pd (data (HuberRegLoss.y self)))).
  assert (Hlr : length (map2 Rminus pd (data (HuberRegLoss.y self))) = n)
    by (rewrite map2_length; lia).
  split; [reflexivity |]. split; [exact Hlr |]. split; [| split].
  - intros i Hi. cbn [data].
    rewrite nth_map2 by lia. f_equal.
    unfold pd. now apply matvec_entry.
  - simpl. unfold FuncBase.eval, HuberRegLoss._eval.
    rewrite Hfit, Hpred. simpl. rewrite Hsh. simpl. rewrite Hinv. simpl.
    now rewrite Hres.
  - simpl. unfold FuncBase.grad, HuberRegLoss._grad.
    rewrite Hfit, Hpred. simpl. rewrite Hres. simpl. rewrite Hsh. simpl.
    rewrite Hinv. simpl.
    rewrite (Xt_times_vector _ _ n d); auto.
    unfold huber_grad, _vec_huber_grad, safe_vectorize, arr_map. cbn [data].
    now rewrite length_map.
Qed.

Lemma HuberRegLoss_no_intercept_witness :
  exists resid,
    shape resid = [2%nat] /\ length (data resid) = 2%nat /\
    (forall i, (i < 2)%nat ->
       nth i (data resid) 0 =
         sum_list (map (fun j => entry 1 (mk_ndarray [2; 1]%nat [1; 2]) i j
                                 * nth j (data (vec [5])) 0) (seq 0 1))
         - nth i (data (vec [1; 3])) 0) /\
    eval (HuberRegLoss.as_Func
            (HuberRegLoss.mk false (mk_ndarray [2; 1]%nat [1; 2])
               (vec [1; 3]) 1 0)) (vec [5]) =
      Ok (1 / INR 2 * huber_eval resid 1) /\
    grad (HuberRegLoss.as_Func
            (HuberRegLoss.mk false (mk_ndarray [2; 1]%nat [1; 2])
               (vec [1; 3]) 1 0)) (vec [5]) =
      Ok (VArr
            (mk_ndarray [1%nat]
               (map (Rmult (1 / INR 2))
                  (Xt_dot 2 1 (mk_ndarray [2; 1]%nat [1; 2])
                     (data (huber_grad resid 1)))))).
Proof.
  apply (HuberRegLoss_no_intercept
           (HuberRegLoss.mk false (mk_ndarray [2; 1]%nat [1; 2])
              (vec [1; 3]) 1 0)
           (vec [5]) 2 1); try reflexivity.
  lia.
Defined.

(** ** [HuberRegMultiRespLoss]: the shape of the gradient *)

Lemma length_concat_uniform (m : nat) (ls : list (list R)) :
  Forall (fun l => length l = m) ls ->
  length (concat ls) = (length ls * m)%nat.
Proof.
  intros H. induction H as [| l ls Hl _ IH]; simpl; [reflexivity |].
  rewrite length_app, IH, Hl. reflexivity.
Qed.

Lemma matmul_matrix_matrix (a b : ndarray) (n k m : nat) :
  shape a = [n; k] -> shape b = [k; m] ->
  exists r, matmul a b = Ok r /\ shape r = [n; m] /\ wf r.
Proof.
  intros Ha Hb. unfold matmul. rewrite Ha, Hb, Nat.eqb_refl.
  eexists. split; [reflexivity |]. split; [reflexivity |].
  unfold wf. cbn [data shape size_of fold_right].
  rewrite (length_concat_uniform m).
  - rewrite length_map, chunks_length. lia.
  - apply Forall_forall. intros l Hl. apply in_map_iff in Hl.
    destruct Hl as (row & <- & _). now rewrite length_map, columns_length.
Qed.

Lemma mean_axis0_matrix (g : ndarray) (n k : nat) :
  shape g = [n; k] ->
  exists r, mean_axis0 g = Ok r /\ shape r = [k] /\ wf r.
Proof.
  intros Hg. unfold mean_axis0. rewrite Hg.
  eexists. split; [reflexivity |]. split; [reflexivity |].
  unfold wf. cbn [data shape]. now rewrite length_map, columns_length.
Qed.

(** X23.  For a [HuberRegMultiRespLoss] built from a design matrix of
    [n > 0] rows and [d] columns and a response of [n] rows and [k]
    columns, the gradient at coefficients of the right size, when the
    prediction has the shape of the response, is a matrix of the
    coefficient shape the constructor computed: [d + 1] rows with an
    intercept and [d] without, and [k] columns. *)
Theorem HuberRegMultiRespLoss_grad_shape
    (sdm : ndarray -> ndarray -> bool -> result ndarray)
    (glip : ndarray -> bool -> result R) (X y : ndarray) (knot : R)
    (fi : bool) (lip : option R) (self : HuberRegMultiRespLoss.t)
    (x pred : ndarray) (n d k : nat) :
  HuberRegMultiRespLoss.__init__ glip X y knot fi lip = Ok self ->
  shape X = [n; d] -> wf X -> shape y = [n; k] -> wf y -> (0 < n)%nat ->
  length (data x) = ((if fi then d + 1 else d) * k)%nat ->
  sdm X (mk_ndarray [if fi then (d + 1)%nat else d; k] (data x)) fi =
    Ok pred ->
  shape pred = [n; k] -> wf pred ->
  HuberRegMultiRespLoss.coef_shape self =
    (if fi then (d + 1)%nat else d, k) /\
  exists r,
    HuberRegMultiRespLossMethods._grad sdm self x = Ok r /\
    shape r = [if fi then (d + 1)%nat else d; k] /\ wf r.
Proof.
  intros Hinit HX HwX Hy Hwy Hn Hlx Hsdm Hp Hwp.
  assert (Hself : exists l,
            self = HuberRegMultiRespLoss.mk fi X y knot
                     (if fi then (d + 1)%nat else d, k) l).
  { unfold HuberRegMultiRespLoss.__init__, shape_at in Hinit.
    rewrite HX, Hy in Hinit. simpl in Hinit.
    destruct fi; simpl in Hinit;
      (destruct lip as [l |];
       [| destruct (glip X _) as [l | e]; simpl in Hinit;
          [| discriminate]]);
      injection Hinit as <-; eauto. }
  destruct Hself as (l & ->). split; [reflexivity |].
  unfold HuberRegMultiRespLossMethods._grad,
    HuberRegMultiRespLossMethods.coef_shape_list.
  cbn [HuberRegMultiRespLoss.coef_shape HuberRegMultiRespLoss.X
       HuberRegMultiRespLoss.y HuberRegMultiRespLoss.knot
       HuberRegMultiRespLoss.fit_intercept fst snd].
  rewrite reshape_same_size by (simpl; lia).
  cbn [bind]. rewrite Hsdm. cbn [bind].
  unfold arr_sub. rewrite arr_binop_same_shape by (auto; congruence).
  cbn [bind]. unfold shape_at. rewrite HX. cbn [nth_error bind].
  rewrite py_inv_nonzero by (apply not_0_INR; lia). cbn [bind].
  destruct (matmul_matrix_matrix
              (scal_mul (1 / INR n) (transpose X))
              (huber_grad
                 (mk_ndarray (shape pred) (map2 Rminus (data pred) (data y)))
                 knot) d n k)
    as (cg & Hcg & Hscg & Hwcg).
  { simpl. now rewrite HX. }
  { simpl. exact Hp. }
  rewrite Hcg. cbn [bind].
  destruct fi.
  - destruct (mean_axis0_matrix
                (huber_grad
                   (mk_ndarray (shape pred)
                      (map2 Rminus (data pred) (data y))) knot) n k)
      as (ig & Hig & Hsig & Hwig).
    { simpl. exact Hp. }
    rewrite Hig. cbn [bind].
    unfold vstack, atleast_2d. rewrite Hsig, Hscg. cbn [shape].
    rewrite Hscg.
    destruct (list_eq_dec Nat.eq_dec [k] [k]) as [_ | Hne]; [| congruence].
    eexists. split; [reflexivity |]. split.
    + cbn [shape]. f_equal. lia.
    + unfold wf in *. cbn [data shape size_of fold_right].
      rewrite length_app, Hwig, Hwcg, Hsig, Hscg. simpl. lia.
  - exists cg. auto.
Qed.

Lemma HuberRegMultiRespLoss_grad_shape_witness :
  HuberRegMultiRespLoss.coef_shape
    (HuberRegMultiRespLoss.mk true (mk_ndarray [2; 1]%nat [1; 2])
       (mk_ndarray [2; 2]%nat [1; 2; 3; 4]) 1 (2%nat, 2%nat) 0) =
    ((1 + 1)%nat, 2%nat) /\
  exists r,
    HuberRegMultiRespLossMethods._grad
      (fun X coef fi => Ok (mk_ndarray [2; 2]%nat [0; 0; 0; 0]))
      (HuberRegMultiRespLoss.mk true (mk_ndarray [2; 1]%nat [1; 2])
         (mk_ndarray [2; 2]%nat [1; 2; 3; 4]) 1 (2%nat, 2%nat) 0)
      (vec [0; 0; 0; 0]) = Ok r /\
    shape r = [(1 + 1)%nat; 2%nat] /\ wf r.
Proof.
  apply (HuberRegMultiRespLoss_grad_shape
           (fun X coef fi => Ok (mk_ndarray [2; 2]%nat [0; 0; 0; 0]))
           (fun _ _ => Ok 0)
           (mk_ndarray [2; 1]%nat [1; 2])
           (mk_ndarray [2; 2]%nat [1; 2; 3; 4]) 1 true (Some 0)
           (HuberRegMultiRespLoss.mk true (mk_ndarray [2; 1]%nat [1; 2])
              (mk_ndarray [2; 2]%nat [1; 2; 3; 4]) 1 (2%nat, 2%nat) 0)
           (vec [0; 0; 0; 0])
           (mk_ndarray [2; 2]%nat [0; 0; 0; 0]) 2 1 2);
    try reflexivity.
  lia.
Defined.

(** ** The logistic kernels *)

Lemma ln1p_bounds (t : R) : 0 < t -> 0 < ln (1 + t) /\ ln (1 + t) < t.
Proof.
  intros Ht. split.
  - rewrite <- ln_1. apply ln_increasing; lra.
  - rewrite <- (ln_exp t) at 2. apply ln_increasing; [lra |].
    apply exp_ineq1. lra.
Qed.

Lemma ln_sigmoid (v : R) : ln (sigmoid v) = - ln (1 + exp (- v)).
Proof.
  unfold sigmoid. pose proof (exp_pos (- v)).
  replace (1 / (1 + exp (- v))) with (/ (1 + exp (- v))) by (field; lra).
  apply ln_Rinv. lra.
Qed.

Lemma ln_sigmoid_low (v : R) : ln (sigmoid v) = v - ln (1 + exp v).
Proof.
  rewrite ln_sigmoid. pose proof (exp_pos v). pose proof (exp_pos (- v)).
  assert (E : 1 + exp v = exp v * (1 + exp (- v))).
  { rewrite Rmult_plus_distr_l, <- exp_plus.
    replace (v + - v) with 0 by lra. rewrite exp_0. lra. }
  rewrite E, ln_mult, ln_exp by lra. lra.
Qed.

Lemma logsig_regions_negative (v : R) : logsig_regions v < 0.
Proof.
  pose proof (exp_pos v) as Pv. pose proof (exp_pos (- v)) as Pn.
  destruct (logsig_regions_spec v) as (H1 & H2 & H3 & H4).
  destruct (Rlt_le_dec v (-33)); [rewrite H1; lra |].
  destruct (Rlt_le_dec v (-18)); [rewrite H2; lra |].
  destruct (Rlt_le_dec v 37).
  - rewrite H3 by lra. unfold log1p.
    destruct (ln1p_bounds (exp (- v))); lra.
  - rewrite H4; lra.
Qed.

Lemma logsig_regions_accuracy (v : R) :
  Rabs (logsig_regions v - ln (sigmoid v)) < exp (-18) /\
  (-18 <= v < 37 -> logsig_regions v = ln (sigmoid v)).
Proof.
  pose proof (exp_pos v) as Pv. pose proof (exp_pos (- v)) as Pn.
  pose proof (exp_pos (-18)) as P18.
  destruct (logsig_regions_spec v) as (H1 & H2 & H3 & H4).
  split.
  - destruct (Rlt_le_dec v (-33)).
    { rewrite H1, ln_sigmoid_low by lra.
      destruct (ln1p_bounds (exp v)); [lra |].
      assert (exp v < exp (-18)) by (apply exp_increasing; lra).
      apply Rabs_def1; lra. }
    destruct (Rlt_le_dec v (-18)).
    { rewrite H2, ln_sigmoid_low by lra.
      destruct (ln1p_bounds (exp v)); [lra |].
      assert (exp v < exp (-18)) by (apply exp_increasing; lra).
      apply Rabs_def1; lra. }
    destruct (Rlt_le_dec v 37).
    { rewrite H3, ln_sigmoid by lra. unfold log1p.
      apply Rabs_def1; lra. }
    rewrite H4, ln_sigmoid by lra.
    destruct (ln1p_bounds (exp (- v))); [lra |].
    assert (exp (- v) < exp (-18)) by (apply exp_increasing; lra).
    apply Rabs_def1; lra.
  - intros Hv. rewrite H3, ln_sigmoid by lra. reflexivity.
Qed.

Lemma arr_binop_vectors (f : R -> R -> R) (a b : ndarray) (m : nat) :
  shape a = [m] -> shape b = [m] ->
  length (data a) = m -> length (data b) = m ->
  arr_binop f a b = Ok (mk_ndarray [m] (map2 f (data a) (data b))).
Proof.
  intros Ha Hb Hla Hlb.
  rewrite arr_binop_same_shape, Ha; auto.
  - unfold wf. rewrite Ha. simpl. lia.
  - unfold wf. rewrite Hb. simpl. lia.
  - congruence.
Qed.

Lemma take_mask_length (idx : list bool) (d1 d2 : list R) :
  length d1 = length d2 ->
  length (take_mask idx d1) = length (take_mask idx d2).
Proof.
  revert d1 d2. induction idx as [| b idx IH]; intros d1 d2 H;
    [reflexivity |].
  destruct b, d1 as [| u d1], d2 as [| v d2]; simpl in *;
    try discriminate; auto.
Qed.

Lemma put_take_mask2 (c : R -> bool) (F G : R -> R -> R) (dz dy : list R) :
  length dy = length dz ->
  put_mask (map c dz) (map2 G dz dy)
    (map2 F (take_mask (map c dz) dz) (take_mask (map c dz) dy)) =
    map2 (fun z y => if c z then F z y else G z y) dz dy.
Proof.
  revert dy. induction dz as [| z dz IH]; intros [| y dy] H; simpl in *;
    try discriminate; [reflexivity |].
  destruct (c z); simpl; rewrite IH by lia; reflexivity.
Qed.

Lemma map_const_map2 (dz dy : list R) :
  length dy = length dz ->
  map (fun _ => 0) dz = map2 (fun _ _ => 0) dz dy.
Proof.
  revert dy. induction dz as [| z dz IH]; intros [| y dy] H; simpl in *;
    try discriminate; [reflexivity |].
  now rewrite (IH dy) by lia.
Qed.

Lemma grads_below_data (tz ty : list R) :
  map2 Rdiv
    (map2 Rminus (map2 Rmult (map (fun t => 1 - t) ty) (map exp tz)) ty)
    (map (fun t => 1 + t) (map exp tz)) =
  map2 (fun zv yv => ((1 - yv) * exp zv - yv) / (1 + exp zv)) tz ty.
Proof.
  revert ty. induction tz as [| z tz IH]; intros [| y ty]; simpl;
    try reflexivity.
  now rewrite IH.
Qed.

Lemma grads_above_data (tz ty : list R) :
  map2 Rdiv
    (map2 Rminus (map (fun t => 1 - t) ty)
       (map2 Rmult ty (map exp (map Ropp tz))))
    (map (fun t => 1 + t) (map exp (map Ropp tz))) =
  map2 (fun zv yv => ((1 - yv) - yv * exp (- zv)) / (1 + exp (- zv))) tz ty.
Proof.
  revert ty. induction tz as [| z tz IH]; intros [| y ty]; simpl;
    try reflexivity.
  now rewrite IH.
Qed.

Lemma sample_grad_below (z y : R) :
  ((1 - y) * exp z - y) / (1 + exp z) = sigmoid z - y.
Proof.
  unfold sigmoid. rewrite exp_Ropp. pose proof (exp_pos z). field. lra.
Qed.

Lemma sample_grad_above (z y : R) :
  ((1 - y) - y * exp (- z)) / (1 + exp (- z)) = sigmoid z - y.
Proof.
  unfold sigmoid. pose proof (exp_pos (- z)). field. lra.
Qed.

Lemma axes_match_same (sh : list nat) : axes_match sh sh = true.
Proof.
  induction sh as [| m sh IH]; simpl; [reflexivity |].
  now rewrite Nat.eqb_refl, orb_true_r, IH.
Qed.

Lemma take_blocks_unit (idx : list bool) (d : list R) :
  take_blocks idx (chunks 1 (length d) d) = take_mask idx d.
Proof.
  revert idx. induction d as [| v d IH]; intros [| b idx]; simpl;
    try reflexivity.
  destruct b; now rewrite IH.
Qed.

Lemma take_mask_count (idx : list bool) (d : list R) :
  length idx = length d -> length (take_mask idx d) = count_true idx.
Proof.
  unfold count_true. revert d.
  induction idx as [| b idx IH]; intros [| v d] H; simpl in *;
    try discriminate; [reflexivity |].
  destruct b; simpl; rewrite IH by lia; reflexivity.
Qed.

Lemma bool_index_same_shape (y : ndarray) (sh : list nat) (idx : list bool) :
  shape y = sh -> wf y ->
  bool_index y sh idx =
    Ok (mk_ndarray [count_true idx] (take_mask idx (data y))).
Proof.
  intros Hs Hw. unfold bool_index, ndim. rewrite Hs.
  rewrite Nat.ltb_irrefl, axes_match_same, skipn_all, firstn_all.
  unfold wf in Hw. rewrite Hs in Hw. rewrite <- Hw.
  change (size_of []) with 1%nat. now rewrite take_blocks_unit.
Qed.

Lemma bool_assign_vector (out : ndarray) (idx : list bool) (vals : ndarray) :
  shape vals = [count_true idx] ->
  length (data vals) = count_true idx ->
  bool_assign out idx vals = Ok (assign out idx vals).
Proof.
  intros Hs Hl. unfold bool_assign. rewrite Hs.
  assert (Hstrip : strip_ones [count_true idx] = [count_true idx]).
  { simpl. now destruct (count_true idx) as [| [| n]]. }
  assert (E : match shape out with
              | [] => strip_ones [count_true idx]
              | _ => [count_true idx]
              end = [count_true idx]).
  { destruct (shape out); [exact Hstrip | reflexivity]. }
  rewrite E.
  destruct (Nat.eqb_spec (count_true idx) 1) as [E1 | _].
  - f_equal. unfold assign. f_equal. simpl. rewrite E1 in *.
    destruct (data vals) as [| v [| w l]]; simpl in Hl; try discriminate.
    reflexivity.
  - now rewrite Nat.eqb_refl.
Qed.

Ltac vec_len :=
  cbn [data shape];
  repeat (first [rewrite length_map | rewrite map2_length]);
  try reflexivity; try congruence.

Lemma sample_grads_value (z y : ndarray) :
  shape y = shape z -> wf z -> wf y ->
  sample_grads z y =
    Ok (mk_ndarray (shape z) (map2 sample_grad_entry (data z) (data y))).
Proof.
  intros Hs Hwz Hwy.
  assert (Hl : length (data y) = length (data z)).
  { unfold wf in *. congruence. }
  set (c := fun v => Rltb v 0).
  assert (Hidx : arr_lt z 0 = map c (data z)) by reflexivity.
  set (idx := map c (data z)) in *.
  set (nidx := map negb idx).
  assert (Hli : length idx = length (data z))
    by (unfold idx; now rewrite length_map).
  assert (Hln : length nidx = length (data z))
    by (unfold nidx; now rewrite length_map).
  assert (Hcz : length (take_mask idx (data z)) = count_true idx)
    by now apply take_mask_count.
  assert (Hcy : length (take_mask idx (data y)) = count_true idx)
    by (apply take_mask_count; congruence).
  assert (Hnz : length (take_mask nidx (data z)) = count_true nidx)
    by now apply take_mask_count.
  assert (Hny : length (take_mask nidx (data y)) = count_true nidx)
    by (apply take_mask_count; congruence).
  unfold sample_grads. rewrite Hidx. fold nidx.
  rewrite !(bool_index_same_shape y (shape z)) by assumption.
  cbn [bind].
  unfold select, vec, arr_exp, arr_neg, zeros_like, arr_map, arr_sub.
  cbn [data shape].
  (* the entries below zero *)
  rewrite (arr_binop_vectors Rmult _ _ (count_true idx));
    [| reflexivity | cbn [shape]; now rewrite Hcz | vec_len | vec_len].
  cbn [bind data shape].
  rewrite (arr_binop_vectors Rminus _ _ (count_true idx));
    [| reflexivity | reflexivity | vec_len | vec_len].
  cbn [bind data shape].
  rewrite (arr_binop_vectors Rdiv _ _ (count_true idx));
    [| reflexivity | cbn [shape]; now rewrite Hcz | vec_len | vec_len].
  cbn [bind data shape].
  rewrite bool_assign_vector; [| reflexivity | vec_len].
  cbn [bind].
  (* the other entries *)
  rewrite (arr_binop_vectors Rmult _ _ (count_true nidx));
    [| reflexivity | cbn [shape]; now rewrite Hnz | vec_len | vec_len].
  cbn [bind data shape].
  rewrite (arr_binop_vectors Rminus _ _ (count_true nidx));
    [| reflexivity | reflexivity | vec_len | vec_len].
  cbn [bind data shape].
  rewrite (arr_binop_vectors Rdiv _ _ (count_true nidx));
    [| reflexivity | cbn [shape]; now rewrite Hnz | vec_len | vec_len].
  cbn [bind data shape].
  rewrite bool_assign_vector; [| reflexivity | vec_len].
  unfold assign. cbn [data shape]. f_equal. f_equal.
  rewrite grads_below_data, grads_above_data.
  unfold nidx, idx. rewrite map_map.
  rewrite (map_const_map2 (data z) (data y) Hl).
  rewrite (put_take_mask2 c) by exact Hl.
  rewrite (put_take_mask2 (fun v => negb (c v))) by exact Hl.
  apply map2_ext. intros u v. unfold sample_grad_entry. fold (c u).
  now destruct (c u).
Qed.

Lemma sample_grad_entry_sigmoid (zv yv : R) :
  sample_grad_entry zv yv = sigmoid zv - yv.
Proof.
  unfold sample_grad_entry. destruct (Rltb zv 0).
  - apply sample_grad_below.
  - apply sample_grad_above.
Qed.

Lemma logsig_data_regions (x : ndarray) :
  data (logsig x) = map logsig_regions (data x).
Proof. rewrite logsig_data. apply map_ext. exact logsig_masks_regions. Qed.

(** X24.  No entry of [logsig] is positive, and the entry of an input
    entry below 37, the last threshold of the source, is negative. *)
Theorem logsig_negative (x : ndarray) :
  Forall (fun o => o <= 0) (data (logsig x)) /\
  (forall i, (i < length (data x))%nat -> nth i (data x) 0 < 37 ->
     nth i (data (logsig x)) 0 < 0).
Proof.
  rewrite logsig_data_regions. split.
  - apply Forall_forall. intros o Ho.
    apply in_map_iff in Ho. destruct Ho as (v & <- & _).
    apply Rlt_le, logsig_regions_negative.
  - intros i Hi _. rewrite nth_map_lt by exact Hi.
    apply logsig_regions_negative.
Qed.

Lemma logsig_negative_witness :
  nth 0 (data (logsig (vec [-40; 2; 800]))) 0 < 0 /\
  nth 1 (data (logsig (vec [-40; 2; 800]))) 0 < 0.
Proof.
  destruct (logsig_negative (vec [-40; 2; 800])) as (_ & H).
  split; apply H; simpl; first [lia | lra].
Defined.

(** X25.  Over the reals, every entry of [logsig] is within [exp (-18)]
    of the logarithm of the logistic function of the entry of the input,
    and equal to it for an entry from -18 up to 37. *)
Theorem logsig_accuracy (x : ndarray) (i : nat) :
  (i < length (data x))%nat ->
  Rabs (nth i (data (logsig x)) 0 - ln (sigmoid (nth i (data x) 0)))
    < exp (-18) /\
  (-18 <= nth i (data x) 0 < 37 ->
   nth i (data (logsig x)) 0 = ln (sigmoid (nth i (data x) 0))).
Proof.
  intros Hi. rewrite logsig_data_regions, nth_map_lt by exact Hi.
  apply logsig_regions_accuracy.
Qed.

Lemma logsig_accuracy_witness :
  Rabs (nth 1 (data (logsig (vec [-40; 2]))) 0
        - ln (sigmoid (nth 1 (data (vec [-40; 2])) 0))) < exp (-18) /\
  (-18 <= nth 1 (data (vec [-40; 2])) 0 < 37 ->
   nth 1 (data (logsig (vec [-40; 2]))) 0 =
     ln (sigmoid (nth 1 (data (vec [-40; 2])) 0))).
Proof. apply (logsig_accuracy (vec [-40; 2]) 1). simpl. lia. Defined.

(** X26.  For a response of the shape of the linear predictor,
    [sample_grads] returns the array of that shape whose entries follow
    the two formulas of the source, the one for a negative predictor and
    the one for the others; over the reals both formulas equal the
    logistic function of the predictor minus the response.  For a
    response of lower rank than the predictor, and for vectors of
    different lengths when the predictor is not empty, it raises
    [IndexError]; for an empty predictor vector it returns an empty
    vector whatever the length of the response vector. *)
Theorem sample_grads_is_sigmoid_minus_y (z y : ndarray) :
  wf z -> wf y ->
  (shape y = shape z ->
   sample_grads z y =
     Ok (mk_ndarray (shape z) (map2 sample_grad_entry (data z) (data y)))) /\
  (forall zv yv, sample_grad_entry zv yv = sigmoid zv - yv) /\
  ((ndim y < ndim z)%nat -> sample_grads z y = Raise IndexError) /\
  (forall n m, shape z = [n] -> shape y = [m] -> n <> m -> n <> 0%nat ->
     sample_grads z y = Raise IndexError) /\
  (forall m, shape z = [0%nat] -> shape y = [m] ->
     sample_grads z y = Ok (mk_ndarray [0%nat] [])).
Proof.
  intros Hwz Hwy. split; [| split; [| split; [| split]]].
  - intros Hs. now apply sample_grads_value.
  - exact sample_grad_entry_sigmoid.
  - intros Hr. unfold sample_grads, bool_index. unfold ndim in Hr.
    destruct (Nat.ltb_spec (ndim y) (length (shape z))) as [_ | Hge];
      [reflexivity | unfold ndim in Hge; lia].
  - intros n m Hz Hy Hnm Hn0. unfold sample_grads, bool_index, ndim.
    rewrite Hz, Hy. simpl.
    destruct (Nat.eqb_spec n 0) as [E | _]; [contradiction |].
    destruct (Nat.eqb_spec n m) as [E | _]; [contradiction |].
    reflexivity.
  - intros m Hz Hy. destruct z as [sz dz]. simpl in Hz. subst sz.
    unfold wf in Hwz. simpl in Hwz.
    destruct dz as [| v dz]; [| discriminate Hwz].
    unfold sample_grads, bool_index, ndim. rewrite Hy. reflexivity.
Qed.

Lemma sample_grads_is_sigmoid_minus_y_witness :
  sample_grads (mk_ndarray [2; 1]%nat [-1; 2]) (mk_ndarray [2; 1]%nat [0; 1]) =
    Ok (mk_ndarray [2; 1]%nat (map2 sample_grad_entry [-1; 2] [0; 1])) /\
  sample_grads (mk_ndarray [2; 1]%nat [-1; 2]) (vec [0; 1]) =
    Raise IndexError /\
  sample_grads (vec [-1; 2]) (vec [0]) = Raise IndexError /\
  sample_grads (vec []) (vec [0; 1]) = Ok (mk_ndarray [0%nat] []).
Proof.
  split; [| split; [| split]].
  - apply (sample_grads_is_sigmoid_minus_y (mk_ndarray [2; 1]%nat [-1; 2])
             (mk_ndarray [2; 1]%nat [0; 1])); reflexivity.
  - apply (sample_grads_is_sigmoid_minus_y (mk_ndarray [2; 1]%nat [-1; 2])
             (vec [0; 1])); try reflexivity.
    unfold ndim. simpl. lia.
  - apply (proj1 (proj2 (proj2 (proj2
             (sample_grads_is_sigmoid_minus_y (vec [-1; 2]) (vec [0])
                eq_refl eq_refl)))) 2%nat 1%nat); try reflexivity; lia.
  - apply (proj2 (proj2 (proj2 (proj2
             (sample_grads_is_sigmoid_minus_y (vec []) (vec [0; 1])
                eq_refl eq_refl)))) 2%nat); reflexivity.
Defined.

Lemma sample_losses_data (dz dy : list R) :
  map2 Rminus (map2 Rmult (map (fun t => 1 - t) dy) dz)
    (map logsig_regions dz) =
  map2 (fun zv yv => (1 - yv) * zv - logsig_regions zv) dz dy.
Proof.
  revert dy. induction dz as [| z dz IH]; intros [| y dy]; simpl;
    try reflexivity.
  now rewrite IH.
Qed.

Lemma sample_loss_nonneg (z y : R) :
  y = 0 \/ y = 1 -> 0 <= (1 - y) * z - logsig_regions z.
Proof.
  intros [-> | ->].
  - pose proof (exp_pos z) as Pz. pose proof (exp_pos (- z)) as Pn.
    destruct (logsig_regions_spec z) as (H1 & H2 & H3 & H4).
    destruct (Rlt_le_dec z (-33)); [rewrite H1; lra |].
    destruct (Rlt_le_dec z (-18)); [rewrite H2; lra |].
    destruct (Rlt_le_dec z 37).
    + rewrite H3 by lra. unfold log1p.
      pose proof (ln_sigmoid z) as E. rewrite ln_sigmoid_low in E.
      destruct (ln1p_bounds (exp z)); lra.
    + rewrite H4; lra.
  - pose proof (logsig_regions_negative z). lra.
Qed.

(** X27.  For a response of the shape of the linear predictor,
    [sample_losses] returns the array of that shape with the entries
    [(1 - y) z - logsig z]; for responses that are 0 or 1 every one of
    these losses is nonnegative. *)
Theorem sample_losses_nonneg (z y : ndarray) :
  shape y = shape z -> wf z -> wf y ->
  exists r,
    sample_losses z y = Ok r /\ shape r = shape z /\
    data r = map2 (fun zv yv => (1 - yv) * zv - logsig_regions zv)
               (data z) (data y) /\
    (Forall (fun yv => yv = 0 \/ yv = 1) (data y) ->
     Forall (fun v => 0 <= v) (data r)).
Proof.
  intros Hs Hwz Hwy.
  assert (Hl : length (data y) = length (data z)).
  { unfold wf in *. congruence. }
  assert (Hwa : wf (arr_map (fun t => 1 - t) y)).
  { unfold wf, arr_map. simpl. now rewrite length_map. }
  assert (Hwl : wf (logsig z)).
  { unfold wf. rewrite logsig_data_regions, length_map. exact Hwz. }
  unfold sample_losses.
  rewrite (arr_binop_same_shape Rmult _ z Hwa Hwz) by (simpl; congruence).
  cbn [bind]. unfold arr_sub. rewrite arr_binop_same_shape.
  2:{ unfold wf. simpl. rewrite map2_length; rewrite length_map; auto. }
  2:{ exact Hwl. }
  2:{ simpl. now rewrite Hs. }
  eexists. split; [reflexivity |]. cbn [shape data arr_map].
  rewrite logsig_data_regions, sample_losses_data.
  split; [exact Hs |]. split; [reflexivity |].
  intros Hy. clear Hl Hwz Hwy Hs. revert Hy.
  generalize (data y) as dy. induction (data z) as [| u dz IH];
    intros [| v dy] Hy; simpl; constructor.
  - inversion Hy; subst. now apply sample_loss_nonneg.
  - inversion Hy; subst. now apply IH.
Qed.

Lemma sample_losses_nonneg_witness :
  exists r,
    sample_losses (vec [-40; 3]) (vec [0; 1]) = Ok r /\
    shape r = shape (vec [-40; 3]) /\
    data r = map2 (fun zv yv => (1 - yv) * zv - logsig_regions zv)
               (data (vec [-40; 3])) (data (vec [0; 1])) /\
    (Forall (fun yv => yv = 0 \/ yv = 1) (data (vec [0; 1])) ->
     Forall (fun v => 0 <= v) (data r)).
Proof.
  apply (sample_losses_nonneg (vec [-40; 3]) (vec [0; 1])); reflexivity.
Defined.

(** X28.  [compute_lip] returns [0.25 / n] times the squared operator
    norm for a design matrix of [n > 0] rows, which is nonnegative; for
    a design matrix of no rows it never returns. *)
Theorem compute_lip_nonneg
    (op : ndarray -> bool -> option ndarray -> result R)
    (X : ndarray) (fi : bool) (sw : option ndarray) :
  (forall l, compute_lip op X fi sw = Ok l ->
     0 <= l /\
     exists n v, shape_at X 0 = Ok n /\ (0 < n)%nat /\ op X fi sw = Ok v /\
                 l = 0.25 / INR n * v ^ 2) /\
  (shape_at X 0 = Ok 0%nat -> forall l, compute_lip op X fi sw <> Ok l).
Proof.
  unfold compute_lip. split.
  - intros l.
    destruct (op X fi sw) as [v | e]; simpl; [| discriminate].
    destruct (shape_at X 0) as [n | e]; simpl; [| discriminate].
    unfold Reqb. destruct (Req_dec_T (INR n) 0) as [E | E]; simpl;
      [discriminate |].
    intros H. injection H as <-.
    assert (Hn : (0 < n)%nat).
    { destruct n; [simpl in E; congruence | lia]. }
    split.
    + pose proof (lt_0_INR n Hn) as Hp.
      assert (0 < 0.25 / INR n) by (apply Rdiv_lt_0_compat; lra).
      assert (0 <= v ^ 2) by (simpl; nra).
      nra.
    + exists n, v. auto.
  - intros Hn l.
    destruct (op X fi sw) as [v | e]; simpl; [| discriminate].
    rewrite Hn. simpl. unfold Reqb.
    destruct (Req_dec_T 0 0); [discriminate | congruence].
Qed.

Lemma compute_lip_nonneg_witness :
  0 <= 0.25 / INR 2 * 3 ^ 2.
Proof.
  apply (proj1 (compute_lip_nonneg (fun _ _ _ => Ok 3)
                  (mk_ndarray [2; 1]%nat [1; 2]) true None)
           (0.25 / INR 2 * 3 ^ 2)).
  unfold compute_lip. simpl. unfold Reqb.
  destruct (Req_dec_T (1 + 1) 0); [lra | reflexivity].
Defined.

(** ** The gradient check *)

Section GradCheckFacts.

Variable check_grad :
  (ndarray -> result R) -> (ndarray -> result value) -> ndarray -> result R.
Variable func : Func.
Variable atol : R.

Lemma did_pass_simpl (err : R) :
  Rleb (Rabs (0 - err)) (atol + 0 * Rabs err) = Rleb (Rabs err) atol.
Proof.
  replace (0 - err) with (- err) by lra. rewrite Rabs_Ropp.
  now replace (atol + 0 * Rabs err) with atol by lra.
Qed.

Lemma check_grad_loop_collect
    (values : list ndarray) (errs : list R) (b : behavior)
    (es : list R) (ps : list bool) :
  b <> error ->
  map (check_grad (eval func) (grad func)) values = map Ok errs ->
  check_grad_loop check_grad func values atol b es ps =
    Ok (es ++ errs, ps ++ map (fun e => Rleb (Rabs e) atol) errs).
Proof.
  intros Hb. revert errs es ps.
  induction values as [| x0 values IH]; intros [| e errs] es ps H;
    simpl in H; try discriminate.
  - simpl. now rewrite !app_nil_r.
  - injection H as Hx Hv. cbn [check_grad_loop]. unfold check_grad_one.
    rewrite Hx. cbn [bind]. rewrite did_pass_simpl.
    destruct b; try congruence; cbn [bind fst snd];
      rewrite (IH errs) by exact Hv; now rewrite <- !app_assoc.
Qed.

Lemma check_grad_loop_error_pass
    (values : list ndarray) (errs : list R) (es : list R) (ps : list bool) :
  map (check_grad (eval func) (grad func)) values = map Ok errs ->
  forallb (fun e => Rleb (Rabs e) atol) errs = true ->
  check_grad_loop check_grad func values atol error es ps =
    Ok (es ++ errs, ps ++ map (fun e => Rleb (Rabs e) atol) errs).
Proof.
  revert errs es ps.
  induction values as [| x0 values IH]; intros [| e errs] es ps H Hp;
    simpl in H; try discriminate.
  - simpl. now rewrite !app_nil_r.
  - injection H as Hx Hv. simpl in Hp. apply andb_prop in Hp.
    destruct Hp as [He Hp].
    cbn [check_grad_loop]. unfold check_grad_one.
    rewrite Hx. cbn [bind]. rewrite did_pass_simpl, He. cbn [bind fst snd].
    rewrite (IH errs) by assumption. simpl. rewrite He.
    now rewrite <- !app_assoc.
Qed.

Lemma check_grad_loop_error_fail
    (values : list ndarray) (errs : list R) (es : list R) (ps : list bool) :
  map (check_grad (eval func) (grad func)) values = map Ok errs ->
  forallb (fun e => Rleb (Rabs e) atol) errs = false ->
  check_grad_loop check_grad func values atol error es ps =
    Raise AssertionError.
Proof.
  revert errs es ps.
  induction values as [| x0 values IH]; intros [| e errs] es ps H Hp;
    simpl in H; try discriminate.
  injection H as Hx Hv. simpl in Hp.
  cbn [check_grad_loop]. unfold check_grad_one.
  rewrite Hx. cbn [bind]. rewrite did_pass_simpl.
  destruct (Rleb (Rabs e) atol); simpl in Hp |- *; [| reflexivity].
  now apply (IH errs).
Qed.

End GradCheckFacts.

(** X29.  When [check_grad] returns an error for each of one or more
    trial points, a point passes exactly when its error is at most
    [atol] in absolute value; ['ret'] hands back the errors and the
    passes in the order of the points, ['warn'] the number of failures
    when there is one and nothing otherwise, and ['error'] nothing when
    every point passes and an [AssertionError] otherwise.  With no trial
    point the check raises [TypeError] in every mode: the passes are an
    empty array of floats, which cannot be negated. *)
Theorem check_grad_impl_modes
    (check_grad :
       (ndarray -> result R) -> (ndarray -> result value) -> ndarray ->
       result R)
    (func : Func) (values : list ndarray) (errs : list R) (atol : R) :
  values <> [] ->
  map (check_grad (eval func) (grad func)) values = map Ok errs ->
  check_grad_impl check_grad func values atol ret =
    Ok (GradReturned errs (map (fun e => Rleb (Rabs e) atol) errs)) /\
  check_grad_impl check_grad func values atol warn =
    Ok (if forallb (fun e => Rleb (Rabs e) atol) errs then GradQuiet
        else GradWarned
               (length (filter (fun e => negb (Rleb (Rabs e) atol)) errs))) /\
  check_grad_impl check_grad func values atol error =
    (if forallb (fun e => Rleb (Rabs e) atol) errs then Ok GradQuiet
     else Raise AssertionError) /\
  (forall b, check_grad_impl check_grad func [] atol b = Raise TypeError).
Proof.
  intros Hne H.
  assert (Hps : forall ps : list bool, ps <> [] ->
                count_fails ps = Ok (length (filter negb ps))).
  { intros [| p ps] Hp; [congruence | reflexivity]. }
  assert (Hpne : map (fun e => Rleb (Rabs e) atol) errs <> []).
  { destruct values, errs; simpl in *; congruence. }
  assert (Hcount : forall l : list R,
            length (filter negb (map (fun e => Rleb (Rabs e) atol) l)) =
            length (filter (fun e => negb (Rleb (Rabs e) atol)) l)).
  { induction l as [| e l IH]; simpl; [reflexivity |].
    destruct (Rleb (Rabs e) atol); simpl; now rewrite IH. }
  assert (Hall : forall l : list R,
            forallb (fun e => Rleb (Rabs e) atol) l = true ->
            length (filter (fun e => negb (Rleb (Rabs e) atol)) l) = 0%nat).
  { induction l as [| e l IH]; simpl; [reflexivity |].
    destruct (Rleb (Rabs e) atol); simpl; [exact IH | discriminate]. }
  assert (Hsome : forall l : list R,
            forallb (fun e => Rleb (Rabs e) atol) l = false ->
            (0 < length (filter (fun e => negb (Rleb (Rabs e) atol)) l))%nat).
  { induction l as [| e l IH]; simpl; [discriminate |].
    destruct (Rleb (Rabs e) atol); simpl; [exact IH | lia]. }
  repeat split; unfold check_grad_impl.
  - rewrite (check_grad_loop_collect check_grad func atol values errs ret)
      by (discriminate || exact H).
    cbn [bind app fst snd]. now rewrite (Hps _ Hpne).
  - rewrite (check_grad_loop_collect check_grad func atol values errs warn)
      by (discriminate || exact H).
    cbn [bind app fst snd]. rewrite (Hps _ Hpne). cbn [bind].
    rewrite Hcount.
    destruct (forallb (fun e => Rleb (Rabs e) atol) errs) eqn:E.
    + now rewrite (Hall errs E).
    + destruct (Nat.ltb_spec 0
                  (length (filter (fun e => negb (Rleb (Rabs e) atol)) errs)))
        as [_ | Hle]; [reflexivity |].
      pose proof (Hsome errs E). lia.
  - destruct (forallb (fun e => Rleb (Rabs e) atol) errs) eqn:E.
    + rewrite (check_grad_loop_error_pass check_grad func atol values errs)
        by assumption.
      cbn [bind app fst snd]. now rewrite (Hps _ Hpne).
    + now rewrite (check_grad_loop_error_fail check_grad func atol values
                     errs) by assumption.
Qed.

Lemma check_grad_impl_modes_witness :
  check_grad_impl (fun _ _ _ => Ok 2) Zero.make [vec [1]; vec [2]] 1 error =
    (if forallb (fun e => Rleb (Rabs e) 1) [2; 2] then Ok GradQuiet
     else Raise AssertionError).
Proof.
  apply (check_grad_impl_modes (fun _ _ _ => Ok 2) Zero.make
           [vec [1]; vec [2]] [2; 2] 1).
  - discriminate.
  - reflexivity.
Defined.

(** ** The proximal check with [force_no_grad] *)

Lemma check_prox_one_force_no_grad_witness :
  exists mx,
    arr_max (arr_abs (mk_ndarray [2%nat]
                        (map2 Rminus (data (vec [1; 2]))
                           (data (vec [1; 2]))))) = Ok mx /\
    check_prox_one (fun o : ndarray => o) (fun _ init _ _ => Ok init)
      Zero.make (vec [1; 2]) default_check_step default_rtol default_atol
      ret (mk_opt_kws (Some true) tt) =
      Ok (mk_errs
            (sum_list (map Rabs (map2 Rminus (data (vec [1; 2]))
                                   (data (vec [1; 2]))))
             / INR 2)
            mx
            (sqrt (sum_list
                     (map (fun t => t * t)
                        (map2 Rminus (data (vec [1; 2]))
                           (data (vec [1; 2])))))),
          forallb (fun uv => Rleb (Rabs (fst uv - snd uv))
                               (default_atol + default_rtol * Rabs (snd uv)))
            (combine (data (vec [1; 2])) (data (vec [1; 2])))).
Proof.
  apply (check_prox_one_force_no_grad unit ndarray (fun o => o)
           (fun _ init _ _ => Ok init) Zero.make (vec [1; 2]) (vec [1; 2])
           (vec [1; 2]) 2 default_check_step default_rtol default_atol tt);
    try reflexivity.
  lia.
Defined.

(** ** [HuberRegLoss] at an exact fit *)

Lemma huber_grad_1d_zero (k : R) : huber_grad_1d 0 k = 0.
Proof.
  unfold huber_grad_1d. rewrite sign_zero.
  destruct (Rleb (Rabs 0) k); lra.
Qed.

Lemma huber_eval_1d_zero (k : R) : 0 <= k -> huber_eval_1d 0 k = 0.
Proof.
  intros Hk. rewrite huber_eval_1d_inner; [lra |]. now rewrite Rabs_R0.
Qed.

Lemma sum_list_zeros (l : list R) :
  Forall (fun v => v = 0) l -> sum_list l = 0.
Proof.
  intros H. induction H as [| v l Hv _ IH].
  - apply sum_list_nil.
  - rewrite sum_list_cons, Hv, IH. lra.
Qed.

Lemma map_zero_repeat {A : Type} (f : A -> R) (l : list A) :
  (forall a, In a l -> f a = 0) -> map f l = repeat 0 (length l).
Proof.
  intros H. induction l as [| a l IH]; simpl; [reflexivity |].
  rewrite H by now left. f_equal. apply IH. intros b Hb. apply H. now right.
Qed.

(** X9.  When the prediction of [HuberRegLoss] (with an intercept, a
    design matrix of [n > 0] rows and [d] columns and a response of [n]
    entries) equals the response exactly, the gradient is the zero
    vector of length [d + 1] for every knot, and the value is 0 for a
    knot [k >= 0]. *)
Theorem HuberRegLoss_exact_fit
    (self : HuberRegLoss.t) (x : ndarray) (n d : nat) :
  HuberRegLoss.fit_intercept self = true ->
  shape (HuberRegLoss.X self) = [n; d] -> wf (HuberRegLoss.X self) ->
  shape (HuberRegLoss.y self) = [n] -> wf (HuberRegLoss.y self) ->
  shape x = [S d] -> wf x ->
  (0 < n)%nat ->
  data (linear_prediction n d (HuberRegLoss.X self) x) =
    data (HuberRegLoss.y self) ->
  grad (HuberRegLoss.as_Func self) x = Ok (VArr (zeros (S d))) /\
  (0 <= HuberRegLoss.knot self ->
   eval (HuberRegLoss.as_Func self) x = Ok 0).
Proof.
  intros Hfit HX HwX Hy Hwy Hx Hwx Hn Hfitted.
  assert (Hres : data (residual_of n d self x) =
                 map (fun _ => 0) (data (HuberRegLoss.y self))).
  { unfold residual_of. cbn [data]. rewrite Hfitted, map2_same.
    apply map_ext. intros v. lra. }
  assert (Hg : Forall (fun v => v = 0)
                 (data (huber_grad (residual_of n d self x)
                          (HuberRegLoss.knot self)))).
  { unfold huber_grad, _vec_huber_grad, safe_vectorize, arr_map. cbn [data].
    rewrite Hres, map_map. apply Forall_forall. intros v Hv.
    apply in_map_iff in Hv. destruct Hv as (u & <- & _).
    apply huber_grad_1d_zero. }
  split.
  - simpl. unfold FuncBase.grad.
    rewrite (HuberRegLoss_grad_value self x n d) by assumption.
    cbn [bind]. unfold zeros, vec. rewrite repeat_length.
    do 3 f_equal. cbn [repeat]. f_equal.
    + unfold arr_mean, arr_sum. rewrite (sum_list_zeros _ Hg).
      unfold Rdiv. ring.
    + unfold Xt_dot. rewrite map_map.
      rewrite (map_zero_repeat _ (seq 0 d)); [now rewrite length_seq |].
      intros j _. rewrite sum_list_zeros; [lra |].
      apply Forall_forall. intros v Hv.
      apply in_map_iff in Hv. destruct Hv as (i & <- & _).
      rewrite Forall_forall in Hg.
      destruct (nth_in_or_default i
                  (data (huber_grad (residual_of n d self x)
                           (HuberRegLoss.knot self))) 0) as [Hin | ->].
      * rewrite (Hg _ Hin). lra.
      * lra.
  - intros Hk. simpl. unfold FuncBase.eval.
    rewrite (HuberRegLoss_eval_value self x n d) by assumption.
    f_equal.
    unfold huber_eval, _vec_huber_eval, safe_vectorize, arr_sum, arr_map.
    cbn [data]. rewrite Hres, map_map, sum_list_zeros; [lra |].
    apply Forall_forall. intros v Hv.
    apply in_map_iff in Hv. destruct Hv as (u & <- & _).
    now apply huber_eval_1d_zero.
Qed.

Lemma HuberRegLoss_exact_fit_witness :
  grad (HuberRegLoss.as_Func
          (HuberRegLoss.mk true (mk_ndarray [2; 1]%nat [1; 2])
             (vec [0 + 1 * 0 + 0; 0 + 2 * 0 + 0]) 1 0))
       (zeros 2) = Ok (VArr (zeros 2)).
Proof.
  apply (HuberRegLoss_exact_fit
           (HuberRegLoss.mk true (mk_ndarray [2; 1]%nat [1; 2])
              (vec [0 + 1 * 0 + 0; 0 + 2 * 0 + 0]) 1 0)
           (zeros 2) 2 1); try reflexivity.
  lia.
Defined.

(** A response with one more axis than the linear predictor is selected
    row by row, and the masked assignment refuses the matrix that
    results. *)
Example sample_grads_matrix_response :
  sample_grads (vec [-1; 2]) (mk_ndarray [2; 1]%nat [0; 1]) = Raise TypeError.
Proof.
  unfold sample_grads, arr_lt. simpl map.
  rewrite (Rltb_true (-1) 0), (Rltb_false 2 0) by lra.
  reflexivity.
Qed.
